(** * The transit fit step of the OpenTS pipeline ([src/tfstep.py])

    A shallow embedding of the parts of [tfstep.py] that carry the design of
    the transit fit step: the observation mask of [TransitFitStep.__call__],
    the prior bounds on the squared radius ratio, the per-orbit delta
    log-likelihood table, the delta-BIC score, the constructor guard and the
    log-likelihood summaries of [TransitFitStep.add_to_fits].

    Conventions of the embedding.
    - numpy [float64] values are idealised as real numbers of [R]: the
      development speaks about the formulas the code evaluates, not about
      rounding, overflow or NaN.
    - one-dimensional numpy arrays are lists; integer arrays are [list Z]
      and boolean arrays [list bool].
    - a Python call that may raise returns a [result]; code that mutates an
      object before it may raise runs in the state-and-exception monad
      [SE], so that the state left behind by a raise is visible.
    - the external collaborators (the [epoch] function of pytransit, the
      optimiser and sampler behind [SearchLPF], the base class [OTSStep])
      are parameters of the functions that call them. *)

From Stdlib Require Import Reals Lra Lia ZArith.
From stdpp Require Import base option list sorting strings gmap.

(** ** Python outcomes *)

Module Py.

Inductive exn : Set :=
| AssertionError
| NotImplementedError
| ValueError
| IndexError
| AttributeError.

Inductive result (A : Type) : Type :=
| Ok (a : A)
| Raise (e : exn).

Arguments Ok {A} a.
Arguments Raise {A} e.

#[export] Instance result_ret : MRet result := fun A a => Ok a.

#[export] Instance result_bind : MBind result := fun A B k m =>
  match m with
  | Ok a => k a
  | Raise e => Raise e
  end.

(** Statements run against a mutable object of type [S]; a raise keeps the
    mutations made so far. *)
Definition SE (S A : Type) : Type := S -> S * result A.

Definition se_ret {S A} (a : A) : SE S A := fun s => (s, Ok a).

Definition se_bind {S A B} (m : SE S A) (k : A -> SE S B) : SE S B :=
  fun s =>
    match m s with
    | (s', Ok a) => k a s'
    | (s', Raise e) => (s', Raise e)
    end.

Definition se_lift {S A} (r : result A) : SE S A := fun s => (s, r).

Definition se_modify {S} (f : S -> S) : SE S unit := fun s => (f s, Ok tt).

(** [assert b] *)
Definition py_assert {S} (b : bool) : SE S unit :=
  se_lift (if b then Ok tt else Raise AssertionError).

End Py.

Import Py.

Declare Scope se_scope.
Delimit Scope se_scope with se.
Notation "x <- m ;; k" := (se_bind m (fun x => k))
  (at level 100, m at next level, right associativity) : se_scope.
Notation "m ;; k" := (se_bind m (fun _ => k))
  (at level 100, right associativity) : se_scope.

(** ** numpy primitives on one-dimensional arrays *)

Module Np.

Local Open Scope R_scope.

#[export] Instance Rlt_decision : RelDecision Rlt := Rlt_dec.

(** [ones(n, bool)] *)
Definition ones_bool (n : nat) : list bool := replicate n true.

(** In-place [mask &= rhs]: the right-hand side has the shape of [mask],
    or is a single element that is broadcast; any other shape raises. *)
Definition iand (mask rhs : list bool) : result (list bool) :=
  if decide (length rhs = length mask) then Ok (zip_with andb mask rhs)
  else match rhs with
       | [r] => Ok (fmap (fun b => b && r) mask)
       | _ => Raise ValueError
       end.

Fixpoint compress {A} (m : list bool) (a : list A) : list A :=
  match m, a with
  | b :: m', x :: a' => if b then x :: compress m' a' else compress m' a'
  | _, _ => []
  end.

(** Boolean-mask indexing [a[m]]: the mask must have the length of the
    array. *)
Definition getmask {A} (m : list bool) (a : list A) : result (list A) :=
  if decide (length m = length a) then Ok (compress m a)
  else Raise IndexError.

(** [a.max()] and [a.min()] raise on an empty array. *)
Definition amax (a : list R) : result R :=
  match a with
  | [] => Raise ValueError
  | x :: t => Ok (fold_left Rmax t x)
  end.

Definition amin (a : list R) : result R :=
  match a with
  | [] => Raise ValueError
  | x :: t => Ok (fold_left Rmin t x)
  end.

(** [sum(a)] (the builtin, a left fold from [0]) and [a.sum()]; they agree
    on real numbers. *)
Definition sum (a : list R) : R := fold_left Rplus a 0.

(** [a.mean()] *)
Definition mean (a : list R) : R := sum a / INR (length a).

Fixpoint insert_unique (z : Z) (l : list Z) : list Z :=
  match l with
  | [] => [z]
  | y :: t =>
      if (z <? y)%Z then z :: l
      else if (z =? y)%Z then l
      else y :: insert_unique z t
  end.

(** [unique(a)]: the sorted distinct elements of [a]. *)
Definition unique (a : list Z) : list Z := foldr insert_unique [] a.

End Np.

Import Np.

(** ** The module [tfstep] *)

Local Open Scope R_scope.

(** [delta_bic(dll, d1, d2, n)], with the integer arguments of its call
    site. *)
Definition delta_bic (dll : R) (d1 d2 : Z) (n : nat) : R :=
  dll + 0.5 * IZR (d1 - d2) * ln (INR n).

(** The model flux handed to [lnlike_normal]: an array, or the scalar [1.0]
    that numpy broadcasts. *)
Inductive operand : Type :=
| Scalar (x : R)
| Array (a : list R).

(** [o - m]; in the array case both operands were selected by the same
    boolean mask and have the same shape. *)
Definition residuals (o : list R) (m : operand) : list R :=
  match m with
  | Scalar x => fmap (fun oi => oi - x) o
  | Array a => zip_with Rminus o a
  end.

(** The local function [lnlike_normal(o, m, e)] of [__call__]. *)
Definition lnlike_normal (o : list R) (m : operand) (e : R) : R :=
  let npt := length o in
  - INR npt * ln e - 0.5 * INR npt * ln (2 * PI)
  - 0.5 * Np.sum (fmap (fun d => d ^ 2 / e ^ 2) (residuals o m)).

(** What the step reads from the transit search object [self.ts]. *)
Record TransitSearch : Type := {
  ts_time : list R;
  ts_flux : list R;
  ts_phase : list R;
  ts_period : R;
  ts_zero_epoch : R;
  ts_duration : R;
  ts_depth : R;
  (** [ts.tf_all.parameters.k2.med], read by the even and odd fits *)
  ts_tf_all_k2_med : R
}.

(** What the step uses of the posterior returned by the fit: the median
    flux model [lpf.flux_model(pv)] and the white-noise parameter
    [pv[7]]. *)
Record Posterior : Type := {
  post_fmod : list R;
  post_pv7 : R
}.

(** The outcome of [__call__] kept on the step. *)
Record Fit : Type := {
  fit_mask : list bool;
  fit_time : list R;
  fit_fobs : list R;
  fit_dll_epochs : list Z;
  fit_dll_values : list R;
  fit_delta_bic : option R
}.

(** A header card [Card(keyword, value, comment)]. *)
Record Card : Type := {
  keyword : string;
  cvalue : R;
  comment : string
}.

(** The attributes of a step instance. *)
Inductive value : Type :=
| VNone
| VStr (s : string)
| VInt (z : Z)
| VFloat (r : R)
| VBool (b : bool)
| VTs (ts : TransitSearch).

Module TransitFitStep.

(** *** [__init__] *)

Section Init.

(** [OTSStep.__init__(self, ts)], the initialiser of the base class
    (module [otsstep]). *)
Variable OTSStep__init__ : TransitSearch -> SE (gmap string value) unit.

Definition setattr (k : string) (v : value) : SE (gmap string value) unit :=
  se_modify (fun self => <[k := v]> self).

Local Open Scope se_scope.

Definition __init__ (ts : TransitSearch) (mode title : string)
    (nsamples : Z) (exptime : R) (use_opencl use_tqdm : bool)
    : SE (gmap string value) unit :=
  py_assert (bool_decide (mode ∈ ["all"; "even"; "odd"]%string)) ;;
  OTSStep__init__ ts ;;
  setattr "mode" (VStr mode) ;;
  setattr "title" (VStr title) ;;
  setattr "nsamples" (VInt nsamples) ;;
  setattr "exptime" (VFloat exptime) ;;
  setattr "use_opencl" (VBool use_opencl) ;;
  setattr "use_tqdm" (VBool use_tqdm) ;;
  setattr "lpf" VNone ;;
  setattr "result" VNone ;;
  setattr "mask" VNone ;;
  setattr "time" VNone ;;
  setattr "phase" VNone ;;
  setattr "fobs" VNone ;;
  setattr "fmod" VNone ;;
  setattr "ftra" VNone ;;
  setattr "dll_epochs" VNone ;;
  setattr "dll_values" VNone ;;
  setattr "parameters" VNone ;;
  setattr "period" VNone ;;
  setattr "zero_epoch" VNone ;;
  setattr "duration" VNone ;;
  setattr "depth" VNone.

End Init.

(** *** [__call__] *)

(** Lines 154-163: the parity mask of the mode, and-ed with the window
    around the transit centre. *)
Definition transit_mask (mode : string) (epochs : list Z) (phase : list R)
    (period duration : R) : result (list bool) :=
  mask ← (if decide (mode = "all"%string) then
            Ok (ones_bool (length epochs))
          else if decide (mode = "even"%string) then
            Ok (fmap (fun e => bool_decide (e `mod` 2 = 0)%Z) epochs)
          else if decide (mode = "odd"%string) then
            Ok (fmap (fun e => bool_decide (e `mod` 2 = 1)%Z) epochs)
          else Raise NotImplementedError);
  iand mask
    (fmap (fun ph => bool_decide (Rabs (ph - 0.5 * period) < 4 * 0.5 * duration))
         phase).

(** Lines 176-186: the bounds of the uniform prior on [k2]. *)
Definition k2_prior (mode : string) (ts : TransitSearch) : R * R :=
  if decide (mode = "all"%string) then
    (0.5 * ts_depth ts, 2 * ts_depth ts)
  else
    let k2 := ts_tf_all_k2_med ts in
    (Rmax (0.01 ^ 2) (0.5 * k2), Rmax (0.08 ^ 2) (Rmin (0.6 ^ 2) (2 * k2))).

(** Line 220: the entry of one epoch, [m] being [epochs == e]. *)
Definition epoch_dll (m : list bool) (fobs fmod : list R) (err : R)
    : result R :=
  o ← getmask m fobs;
  f ← getmask m fmod;
  Ok (lnlike_normal o (Array f) err - lnlike_normal o (Scalar 1) err).

Fixpoint for_epochs (ues epochs : list Z) (fobs fmod : list R) (err : R)
    : result (list R) :=
  match ues with
  | [] => Ok []
  | e :: ues' =>
      d ← epoch_dll (fmap (fun x => bool_decide (x = e)) epochs) fobs fmod err;
      ds ← for_epochs ues' epochs fobs fmod err;
      Ok (d :: ds)
  end.

(** Lines 210-220: the per-orbit log likelihood differences. *)
Definition per_orbit_dll (epochs : list Z) (fobs fmod : list R) (err : R)
    : result (list Z * list R) :=
  let ues := unique epochs in
  lnl ← for_epochs ues epochs fobs fmod err;
  Ok (ues, lnl).

(** Lines 231-232: the score stored by the fit of all transits. *)
Definition score (mode : string) (lnl : list R) (size : nat) : option R :=
  if decide (mode = "all"%string) then Some (delta_bic (Np.sum lnl) 0 9 size)
  else None.

(** The path of [__call__] that runs the fit: [initialize_only] is false
    and the prior setup of lines 176-194 returns. It is reduced to what the
    mask, the table and the score depend on: the priors other than the one
    on [k2], the limb-darkening table, the folded phase [self.phase], the
    transit model [self.ftra] and the update of the ephemeris are left out.
    [tref = floor(self.time.min())] is kept for its raise on an empty
    selection. The other paths are in [FullStep.__call__] below. *)

Section Call.

(** [pytransit.orbits.epoch], applied to each time stamp. *)
Variable epoch : R -> R -> R -> Z.

(** The optimiser and sampler run on the selected times and fluxes with
    the prior bounds on [k2]. *)
Variable fit : list R -> list R -> R * R -> Posterior.

Definition __call__ (ts : TransitSearch) (mode : string) : result Fit :=
  let epochs :=
    fmap (fun t => epoch t (ts_zero_epoch ts) (ts_period ts)) (ts_time ts) in
  mask ← transit_mask mode epochs (ts_phase ts) (ts_period ts)
                      (ts_duration ts);
  epochs' ← getmask mask epochs;
  time ← getmask mask (ts_time ts);
  fobs ← getmask mask (ts_flux ts);
  _ ← amin time;
  let post := fit time fobs (k2_prior mode ts) in
  '(ues, lnl) ← per_orbit_dll epochs' fobs (post_fmod post)
                              (Rpower 10 (post_pv7 post));
  Ok {| fit_mask := mask;
        fit_time := time;
        fit_fobs := fobs;
        fit_dll_epochs := ues;
        fit_dll_values := lnl;
        fit_delta_bic := score mode lnl (length time) |}.

End Call.

(** *** [add_to_fits] *)

(** [log(exp(ll - lm).mean()) + lm] with [lm = ll.max()]. *)
Definition mean_dll (ll : list R) : result R :=
  lm ← amax ll;
  Ok (ln (Np.mean (fmap (fun x => exp (x - lm)) ll)) + lm).

(** [h.append(Card(k, v, c))]. The state is the sequence of the cards
    handed to astropy's [Header.append], in the order of the calls; where
    [Header.append] places a card among the cards already in the header
    is not modelled. *)
Definition append_card (k : string) (v : R) (c : string)
    : SE (list Card) unit :=
  se_modify (fun h => h ++ [{| keyword := k; cvalue := v; comment := c |}]).

(** [self.mode[0]] *)
Definition mode_tag (mode : string) : result string :=
  match mode with
  | EmptyString => Raise IndexError
  | String c _ => Ok (String c EmptyString)
  end.

Local Open Scope se_scope.

(** Lines 237 and 275-288, run on the header that already holds the cards
    of the fitted parameters; [fitted] is [self.lpf is not None]. *)
Definition add_to_fits (fitted : bool) (mode : string) (ep : list Z)
    (ll : list R) : SE (list Card) unit :=
  if fitted then
    c <- se_lift (mode_tag mode) ;;
    v <- se_lift (mean_dll ll) ;;
    append_card ("TF" +:+ c +:+ "_DLLA") v
                "Mean per-orbit delta log likelihood" ;;
    if decide (mode = "all"%string) then
      sel <- se_lift (getmask (fmap (fun e => bool_decide (e `mod` 2 = 0)%Z) ep) ll) ;;
      v <- se_lift (mean_dll sel) ;;
      append_card "TFA_DLLO" v "Mean per-orbit delta log likelihood (odd)" ;;
      sel <- se_lift (getmask (fmap (fun e => bool_decide (e `mod` 2 ≠ 0)%Z) ep) ll) ;;
      v <- se_lift (mean_dll sel) ;;
      append_card "TFA_DLLE" v "Mean per-orbit delta log likelihood (even)"
    else se_ret tt
  else se_ret tt.

End TransitFitStep.

(** ** The vocabulary of the specification

    The definitions of this module follow the words of the specification;
    the theorems below compare them with the code. *)

Module Spec.

(** The free-parameter counts of the transit model and of the flat model. *)
Definition k_transit : Z := 9.
Definition k_flat : Z := 0.

(** The parity filter of a mode. *)
Definition parity_ok (mode : string) (e : Z) : Prop :=
  mode = "all"%string
  \/ (mode = "even"%string /\ (e `mod` 2 = 0)%Z)
  \/ (mode = "odd"%string /\ (e `mod` 2 = 1)%Z).

(** The window of four half-durations around mid-transit. *)
Definition in_window (phase period duration : R) : Prop :=
  Rabs (phase - 0.5 * period) < 4 * 0.5 * duration.

(** A mask as the set of the indices it retains. *)
Fixpoint retained_from (k : nat) (mask : list bool) : gset nat :=
  match mask with
  | [] => ∅
  | b :: mask' => (if b then {[ k ]} else ∅) ∪ retained_from (S k) mask'
  end.

Definition retained (mask : list bool) : gset nat := retained_from 0 mask.

(** The values of [xs] at the positions whose epoch satisfies [P]. *)
Definition at_epochs {A} (P : Z -> Prop) `{!forall e, Decision (P e)}
    (epochs : list Z) (xs : list A) : list A :=
  (filter (fun p => P p.1) (zip epochs xs)).*2.

(** The values of [xs] at the observations of epoch [e]. *)
Definition restrict {A} (e : Z) (epochs : list Z) (xs : list A) : list A :=
  at_epochs (fun x => x = e) epochs xs.

(** The sum of a list of reals. *)
Definition total (xs : list R) : R := foldr Rplus 0 xs.

(** The Gaussian log-likelihood of the observations [o] under the model
    [m] with the noise [e]. *)
Definition LL (o m : list R) (e : R) : R :=
  let n := INR (length o) in
  - n * ln e - 0.5 * n * ln (2 * PI)
  - 0.5 * total (zip_with (fun oi mi => (oi - mi)² / e²) o m).

(** The flat baseline for [n] points. *)
Definition flat (n : nat) : list R := replicate n 1.

(** The closed form of the mean delta log-likelihood. *)
Definition log_mean_exp (vals : list R) : R :=
  ln (total (exp <$> vals) / INR (length vals)).

End Spec.

(** ** A small data set

    Two observations of one transit: period 2, zero epoch 0, duration 1;
    both lie in epoch 0 and inside the window. The fit returns the observed
    flux as its model and a white-noise parameter of 0. *)

Module Sample.

Definition epoch : R -> R -> R -> Z := fun _ _ _ => 0%Z.

Definition fit : list R -> list R -> R * R -> Posterior :=
  fun _ fobs _ => {| post_fmod := fobs; post_pv7 := 0 |}.

Definition ts : TransitSearch :=
  {| ts_time := [0; 0.5];
     ts_flux := [1; 1];
     ts_phase := [1; 1.5];
     ts_period := 2;
     ts_zero_epoch := 0;
     ts_duration := 1;
     ts_depth := 0.01;
     ts_tf_all_k2_med := 0.01 |}.

(** The same data after a fit of all transits with a shallow transit:
    a median squared radius ratio of 0.001. *)
Definition ts_shallow : TransitSearch :=
  {| ts_time := [0; 0.5];
     ts_flux := [1; 1];
     ts_phase := [1; 1.5];
     ts_period := 2;
     ts_zero_epoch := 0;
     ts_duration := 1;
     ts_depth := 0.001;
     ts_tf_all_k2_med := 0.001 |}.

(** A base-class initialiser that stores [ts]. *)
Definition OTSStep__init__ (ts : TransitSearch)
    : SE (gmap string value) unit :=
  se_modify (fun self => <["ts"%string := VTs ts]> self).

End Sample.

(** ** [sine_model]

    The loops of [sine_model] (lines 41-51) over the parameter vectors [i]
    and the harmonics [j]. numba does not check array bounds: the model
    covers the well-shaped calls, where [phase] has one entry and
    [amplitudes] one row per entry of [period]. *)

Module SineModel.

(** [amplitudes[i, j] * sin(2 * pi * (time - phase[i] * period[i])
    / (period[i] / (j + 1)))] over the time stamps. *)
Definition harmonic (time : list R) (period phase a : R) (j : nat) : list R :=
  (fun t => a * sin (2 * PI * (t - phase * period) / (period / INR (j + 1))))
    <$> time.

(** The inner loop from the harmonic [j]: [bl[i, :] += ...]. *)
Fixpoint add_harmonics (j : nat) (time : list R) (period phase : R)
    (amps : list R) (bl : list R) : list R :=
  match amps with
  | [] => bl
  | a :: amps' =>
      add_harmonics (S j) time period phase amps'
        (zip_with Rplus bl (harmonic time period phase a j))
  end.

(** One row of [bl], started from the zeros of [zeros((npv, npt))]. *)
Definition sine_row (time : list R) (period phase : R) (amps : list R)
    : list R :=
  add_harmonics 0 time period phase amps (replicate (length time) 0).

Definition sine_model (time period phase : list R)
    (amplitudes : list (list R)) : list (list R) :=
  zip_with (fun pp amps => sine_row time pp.1 pp.2 amps)
           (zip period phase) amplitudes.

End SineModel.

(** ** The priors set by [__call__]

    Lines 176-194. The calls [lpf.set_prior(name, kind, a, b)] are recorded
    in the order they are made; reading the limb-darkening table and
    interpolating it at [teff] is a parameter. *)

Module PriorSetup.

Inductive prior : Type :=
| NP (mean std : R)
| UP (lo hi : R).

(** The medians and errors of [ts.tf_all.parameters] read by the even and
    odd fits, besides [k2.med]. *)
Record Reference : Type := {
  ref_tc_med : R;
  ref_tc_err : R;
  ref_p_med : R;
  ref_p_err : R;
  ref_q1_med : R;
  ref_q1_err : R;
  ref_q2_med : R;
  ref_q2_err : R
}.

Definition set_prior (name : string) (pr : prior)
    : SE (list (string * prior)) unit :=
  se_modify (fun calls => calls ++ [(name, pr)]).

(** The prior in force for a parameter: the one of the last call that
    names it. *)
Definition in_force (name : string) (calls : list (string * prior))
    : option prior :=
  snd <$> last (filter (fun c => c.1 = name) calls).

Section Setup.

(** [interp1d(ldcs.teff, ldcs[['q1', 'q2']].T)(teff)] on the table read
    from [data/ldc_table.fits]. *)
Variable ldc : R -> result (R * R).

Local Open Scope se_scope.

Definition set_priors (mode : string) (ts : TransitSearch) (pr : Reference)
    (teff : option R) : SE (list (string * prior)) unit :=
  (if decide (mode = "all"%string) then
     set_prior "tc" (NP (ts_zero_epoch ts) 0.01) ;;
     set_prior "p" (NP (ts_period ts) 0.001) ;;
     set_prior "k2" (UP (TransitFitStep.k2_prior mode ts).1
                        (TransitFitStep.k2_prior mode ts).2)
   else
     set_prior "tc" (NP (ref_tc_med pr) (ref_tc_err pr)) ;;
     set_prior "p" (NP (ref_p_med pr) (ref_p_err pr)) ;;
     set_prior "k2" (UP (TransitFitStep.k2_prior mode ts).1
                        (TransitFitStep.k2_prior mode ts).2) ;;
     set_prior "q1" (NP (ref_q1_med pr) (ref_q1_err pr)) ;;
     set_prior "q2" (NP (ref_q2_med pr) (ref_q2_err pr))) ;;
  match teff with
  | Some t =>
      q <- se_lift (ldc t) ;;
      set_prior "q1" (NP q.1 0.00001) ;;
      set_prior "q2" (NP q.2 0.00001)
  | None => se_ret tt
  end.

End Setup.

End PriorSetup.

(** ** The whole of [add_to_fits]

    Lines 237-288 with the cards of the fitted parameters. A card value is
    a float, an integer, a boolean or a string; the state is the sequence
    of the cards handed to [Header.append], in the order of the calls.
    [parameters] is [self.parameters], [None] until a fit has run. *)

Module FitsHeader.

Inductive card_value : Type :=
| CFloat (r : R)
| CInt (z : Z)
| CBool (b : bool)
| CStr (s : string).

Record HCard : Type := {
  hkeyword : string;
  hvalue : card_value;
  hcomment : string
}.

(** A row [med], [err] of the posterior summary. *)
Record Estimate : Type := {
  med : R;
  err : R
}.

(** The rows of [self.parameters] that [add_to_fits] reads. The median and
    error of [t23] are [None] when they are not finite. *)
Record Parameters : Type := {
  p_tc : Estimate;
  p_p : Estimate;
  p_rho : Estimate;
  p_b : Estimate;
  p_k2 : Estimate;
  p_c_sin : Estimate;
  p_a_sin_0 : Estimate;
  p_k : Estimate;
  p_a : Estimate;
  p_t14 : Estimate;
  p_t23_med : option R;
  p_t23_err : option R;
  p_wn_loge_0 : Estimate
}.

Definition append (k : string) (v : card_value) (c : string)
    : SE (list HCard) unit :=
  se_modify (fun h => h ++ [{| hkeyword := k; hvalue := v; hcomment := c |}]).

Definition of_card (c : Card) : HCard :=
  {| hkeyword := keyword c; hvalue := CFloat (cvalue c); hcomment := comment c |}.

(** Running the statements of lines 275-288 on the header at hand. *)
Definition dll_cards (mode : string) (ep : list Z) (ll : list R)
    : SE (list HCard) unit :=
  fun h =>
    let out := TransitFitStep.add_to_fits true mode ep ll [] in
    (h ++ (of_card <$> out.1), out.2).

Local Open Scope se_scope.

(** [parameters] is [self.parameters]: [None] until a fit has completed,
    also when [self.lpf] is already set (after [initialize_only], or when
    the fit raised); reading [p.tc.med] then raises. *)
Definition add_to_fits (fitted : bool) (mode title : string)
    (parameters : option Parameters) (ep : list Z) (ll : list R)
    : SE (list HCard) unit :=
  if fitted then
    c <- se_lift (TransitFitStep.mode_tag mode) ;;
    let key := fun (s : string) => "TF" +:+ c +:+ s in
    append "COMMENT" (CStr "======================") "" ;;
    append "COMMENT" (CStr title) "" ;;
    append "COMMENT" (CStr "======================") "" ;;
    p <- se_lift (match parameters with
                  | Some p => Ok p
                  | None => Raise AttributeError
                  end) ;;
    append (key "_T0") (CFloat (med (p_tc p))) "Transit centre [BJD]" ;;
    append (key "_T0E") (CFloat (err (p_tc p)))
           "Transit centre uncertainty [d]" ;;
    append (key "_PR") (CFloat (med (p_p p))) "Orbital period [d]" ;;
    append (key "_PRE") (CFloat (err (p_p p)))
           "Orbital period uncertainty [d]" ;;
    append (key "_RHO") (CFloat (med (p_rho p))) "Stellar density [g/cm^3]" ;;
    append (key "_RHOE") (CFloat (err (p_rho p)))
           "Stellar density uncertainty [g/cm^3]" ;;
    append (key "_B") (CFloat (med (p_b p))) "Impact parameter" ;;
    append (key "_BE") (CFloat (err (p_b p))) "Impact parameter uncertainty" ;;
    append (key "_AR") (CFloat (med (p_k2 p))) "Area ratio" ;;
    append (key "_ARE") (CFloat (err (p_k2 p))) "Area ratio uncertainty" ;;
    append (key "_SC") (CFloat (med (p_c_sin p))) "Sine phase" ;;
    append (key "_SCE") (CFloat (err (p_c_sin p))) "Sine phase uncertainty" ;;
    append (key "_SA") (CFloat (med (p_a_sin_0 p))) "Sine amplitude" ;;
    append (key "_SAE") (CFloat (err (p_a_sin_0 p)))
           "Sine amplitude uncertainty" ;;
    append (key "_RR") (CFloat (med (p_k p))) "Radius ratio" ;;
    append (key "_RRE") (CFloat (err (p_k p))) "Radius ratio uncertainty" ;;
    append (key "_A") (CFloat (med (p_a p))) "Semi-major axis" ;;
    append (key "_AE") (CFloat (err (p_a p))) "Semi-major axis uncertainty" ;;
    append (key "_T14") (CFloat (med (p_t14 p))) "Transit duration T14 [d]" ;;
    append (key "_T14E") (CFloat (err (p_t14 p)))
           "Transit duration T14 uncertainty [d]" ;;
    match p_t23_med p, p_t23_err p with
    | Some m, Some e =>
        append (key "_T23") (CFloat m) "Transit duration T23 [d]" ;;
        append (key "_T23E") (CFloat e)
               "Transit duration T23 uncertainty [d]" ;;
        append (key "_TDR") (CFloat (m / med (p_t14 p))) "T23 to T14 ratio"
    | _, _ =>
        append (key "_T23") (CInt 0) "Transit duration T23 [d]" ;;
        append (key "_T23E") (CInt 0) "Transit duration T23 uncertainty [d]" ;;
        append (key "_TDR") (CInt 0) "T23 to T14 ratio"
    end ;;
    append (key "_WN") (CFloat (Rpower 10 (med (p_wn_loge_0 p))))
           "White noise std" ;;
    append (key "_GRAZ")
           (CBool (bool_decide (1 < med (p_b p) + med (p_k p))))
           "Is the transit grazing" ;;
    dll_cards mode ep ll
  else se_ret tt.

End FitsHeader.

(** ** The whole of [__call__]

    Lines 148-233 with the paths that [TransitFitStep.__call__] leaves
    out: the reference summary [ts.tf_all.parameters] may be [None], the
    limb-darkening lookup may raise, and [initialize_only] returns before
    the fit. The [set_prior] calls are recorded as in [PriorSetup]; the
    constructors of the transit model and of [SearchLPF], the optimiser,
    the sampler and [update_ephemeris] are taken to return. *)

Module FullStep.

(** What a normal return leaves on the step: after [initialize_only] the
    mask and the selected times and fluxes, with [dll_epochs],
    [dll_values] and [parameters] still [None]; after a fit the whole
    outcome. *)
Inductive outcome : Type :=
| Initialized (mask : list bool) (time fobs : list R)
| Fitted (r : Fit).

Section Full.

Variable epoch : R -> R -> R -> Z.
Variable fit : list R -> list R -> R * R -> Posterior.
Variable ldc : R -> result (R * R).

(** Lines 152-171: the mask, the selections and [self.time.min()]. *)
Definition select (ts : TransitSearch) (mode : string)
    : result (list bool * list Z * list R * list R) :=
  let epochs :=
    fmap (fun t => epoch t (ts_zero_epoch ts) (ts_period ts)) (ts_time ts) in
  mask ← TransitFitStep.transit_mask mode epochs (ts_phase ts) (ts_period ts)
                                     (ts_duration ts);
  epochs' ← getmask mask epochs;
  time ← getmask mask (ts_time ts);
  fobs ← getmask mask (ts_flux ts);
  _ ← amin time;
  Ok (mask, epochs', time, fobs).

Local Open Scope se_scope.

(** Lines 176-194, [reference] being [self.ts.tf_all.parameters]. *)
Definition configure (mode : string) (ts : TransitSearch)
    (reference : option PriorSetup.Reference) (teff : option R)
    : SE (list (string * PriorSetup.prior)) unit :=
  (if decide (mode = "all"%string) then
     PriorSetup.set_prior "tc" (PriorSetup.NP (ts_zero_epoch ts) 0.01) ;;
     PriorSetup.set_prior "p" (PriorSetup.NP (ts_period ts) 0.001) ;;
     PriorSetup.set_prior "k2"
       (PriorSetup.UP (TransitFitStep.k2_prior mode ts).1
                      (TransitFitStep.k2_prior mode ts).2)
   else
     pr <- se_lift (match reference with
                    | Some pr => Ok pr
                    | None => Raise AttributeError
                    end) ;;
     PriorSetup.set_prior "tc"
       (PriorSetup.NP (PriorSetup.ref_tc_med pr) (PriorSetup.ref_tc_err pr)) ;;
     PriorSetup.set_prior "p"
       (PriorSetup.NP (PriorSetup.ref_p_med pr) (PriorSetup.ref_p_err pr)) ;;
     PriorSetup.set_prior "k2"
       (PriorSetup.UP (TransitFitStep.k2_prior mode ts).1
                      (TransitFitStep.k2_prior mode ts).2) ;;
     PriorSetup.set_prior "q1"
       (PriorSetup.NP (PriorSetup.ref_q1_med pr) (PriorSetup.ref_q1_err pr)) ;;
     PriorSetup.set_prior "q2"
       (PriorSetup.NP (PriorSetup.ref_q2_med pr) (PriorSetup.ref_q2_err pr))) ;;
  match teff with
  | Some t =>
      q <- se_lift (ldc t) ;;
      PriorSetup.set_prior "q1" (PriorSetup.NP q.1 0.00001) ;;
      PriorSetup.set_prior "q2" (PriorSetup.NP q.2 0.00001)
  | None => se_ret tt
  end.

Definition __call__ (ts : TransitSearch)
    (reference : option PriorSetup.Reference) (teff : option R)
    (mode : string) (initialize_only : bool)
    : SE (list (string * PriorSetup.prior)) outcome :=
  sel <- se_lift (select ts mode) ;;
  let '(mask, epochs', time, fobs) := sel in
  configure mode ts reference teff ;;
  if initialize_only then se_ret (Initialized mask time fobs)
  else
    let post := fit time fobs (TransitFitStep.k2_prior mode ts) in
    tab <- se_lift (TransitFitStep.per_orbit_dll epochs' fobs (post_fmod post)
                      (Rpower 10 (post_pv7 post))) ;;
    se_ret (Fitted {| fit_mask := mask;
                      fit_time := time;
                      fit_fobs := fobs;
                      fit_dll_epochs := tab.1;
                      fit_dll_values := tab.2;
                      fit_delta_bic :=
                        TransitFitStep.score mode tab.2 (length time) |}).

End Full.

End FullStep.

(** ** Further sample data *)

Module Sample2.

(** A table that knows one temperature. *)
Definition ldc (teff : R) : result (R * R) :=
  if decide (teff < 5000) then Raise ValueError else Ok (0.4, 0.3).

Definition reference : PriorSetup.Reference :=
  {| PriorSetup.ref_tc_med := 0;
     PriorSetup.ref_tc_err := 0.001;
     PriorSetup.ref_p_med := 2;
     PriorSetup.ref_p_err := 0.0001;
     PriorSetup.ref_q1_med := 0.5;
     PriorSetup.ref_q1_err := 0.1;
     PriorSetup.ref_q2_med := 0.5;
     PriorSetup.ref_q2_err := 0.1 |}.

Definition estimate (m e : R) : FitsHeader.Estimate :=
  {| FitsHeader.med := m; FitsHeader.err := e |}.

Definition parameters : FitsHeader.Parameters :=
  {| FitsHeader.p_tc := estimate 0 0.001;
     FitsHeader.p_p := estimate 2 0.0001;
     FitsHeader.p_rho := estimate 1.4 0.2;
     FitsHeader.p_b := estimate 0.3 0.1;
     FitsHeader.p_k2 := estimate 0.01 0.001;
     FitsHeader.p_c_sin := estimate 0.5 0.1;
     FitsHeader.p_a_sin_0 := estimate 0.0001 0.0001;
     FitsHeader.p_k := estimate 0.1 0.005;
     FitsHeader.p_a := estimate 8 1;
     FitsHeader.p_t14 := estimate 0.1 0.01;
     FitsHeader.p_t23_med := None;
     FitsHeader.p_t23_err := Some 0.01;
     FitsHeader.p_wn_loge_0 := estimate (-3) 0.1 |}.

End Sample2.

(** ** The delta-BIC score *)

Section DeltaBIC.

Lemma INR_2 : INR 2 = 2.
Proof. simpl; lra. Qed.

Lemma ln_2_pos : 0 < ln 2.
Proof. pose proof ln_lt_2; lra. Qed.

(** The penalty of the call site: [d1 = 0] and [d2 = 9]. *)
Lemma delta_bic_call_site (s : R) (n : nat) :
  delta_bic s 0 9 n = s - 4.5 * ln (INR n).
Proof.
  unfold delta_bic.
  replace (0 - 9)%Z with (-9)%Z by lia.
  lra.
Qed.

Lemma ln_INR_lt (n n' : nat) :
  (1 <= n)%nat -> (n < n')%nat -> ln (INR n) < ln (INR n').
Proof.
  intros Hn Hlt.
  apply ln_increasing.
  - apply lt_0_INR; lia.
  - apply lt_INR; lia.
Qed.

End DeltaBIC.

(** ** Outcomes and arrays *)

Section Arrays.

Lemma bind_Ok_inv {A B} (m : result A) (k : A -> result B) (b : B) :
  m ≫= k = Ok b -> exists a, m = Ok a /\ k a = Ok b.
Proof.
  destruct m as [a|e]; cbn; intros H.
  - exists a; split; [reflexivity | exact H].
  - discriminate H.
Qed.

Lemma getmask_Ok {A} (m : list bool) (a l : list A) :
  getmask m a = Ok l -> length m = length a /\ l = compress m a.
Proof.
  unfold getmask; case_decide as Hlen; intros Heq; [|discriminate Heq].
  split; [assumption | congruence].
Qed.

Lemma getmask_same_length {A} (m : list bool) (a : list A) :
  length m = length a -> getmask m a = Ok (compress m a).
Proof. intros H; unfold getmask; rewrite decide_True; done. Qed.

Lemma iand_same_length (mask rhs : list bool) :
  length rhs = length mask -> iand mask rhs = Ok (zip_with andb mask rhs).
Proof. intros H; unfold iand; rewrite decide_True; done. Qed.

Lemma length_compress {A B} (m : list bool) (a : list A) (b : list B) :
  length m = length a -> length m = length b ->
  length (compress m a) = length (compress m b).
Proof.
  revert a b; induction m as [|x m IH]; intros [|y a] [|z b] Ha Hb;
    simplify_eq/=; try done.
  destruct x; cbn; auto.
Qed.

(** A retained observation appears in the selection. *)
Lemma compress_nonempty {A} (m : list bool) (a : list A) (i : nat) :
  length m = length a -> m !! i = Some true -> compress m a <> [].
Proof.
  revert a i; induction m as [|x m IH]; intros [|y a] i Hlen Hi;
    simplify_eq/=.
  destruct i as [|i]; simplify_eq/=; [done|].
  destruct x; [done|]. by eapply IH.
Qed.

Lemma elem_of_retained_from (k i : nat) (mask : list bool) :
  i ∈ Spec.retained_from k mask <->
  exists j, i = (k + j)%nat /\ mask !! j = Some true.
Proof.
  revert k; induction mask as [|b mask IH]; intros k; cbn.
  - split; [set_solver | intros (j & _ & Hj); done].
  - rewrite elem_of_union, IH. split.
    + intros [Hi | (j & -> & Hj)].
      * destruct b; [|set_solver].
        apply elem_of_singleton in Hi as ->.
        exists 0%nat; split; [lia | done].
      * exists (S j); split; [lia | done].
    + intros ([|j] & -> & Hj); simplify_eq/=.
      * left; apply elem_of_singleton; lia.
      * right; exists j; split; [lia | done].
Qed.

Lemma elem_of_retained (i : nat) (mask : list bool) :
  i ∈ Spec.retained mask <-> mask !! i = Some true.
Proof.
  unfold Spec.retained; rewrite elem_of_retained_from.
  split; [intros (j & -> & Hj); exact Hj | intros H; by exists i].
Qed.

(** The selection has as many elements as the mask retains. *)
Lemma length_compress_retained_from {A} (k : nat) (m : list bool)
    (a : list A) :
  length m = length a ->
  length (compress m a) = size (Spec.retained_from k m).
Proof.
  revert k a; induction m as [|b m IH]; intros k [|y a] Hlen;
    try discriminate Hlen; cbn [compress Spec.retained_from length].
  - by rewrite size_empty.
  - injection Hlen as Hlen.
    destruct b; cbn [length].
    + rewrite size_union.
      * rewrite size_singleton, <- (IH (S k) a Hlen); reflexivity.
      * apply disjoint_singleton_l.
        rewrite elem_of_retained_from; intros (j & Hj & _); lia.
    + rewrite (left_id_L ∅ (∪)). by apply IH.
Qed.

Lemma length_compress_retained {A} (m : list bool) (a : list A) :
  length m = length a -> length (compress m a) = size (Spec.retained m).
Proof. apply length_compress_retained_from. Qed.

End Arrays.

(** ** The observation mask *)

Section Mask.

Implicit Types (epochs : list Z) (phase : list R) (mask : list bool).

Lemma window_lookup phase (period duration : R) (i : nat) (ph : R) :
  phase !! i = Some ph ->
  ((fun x => bool_decide (Rabs (x - 0.5 * period) < 4 * 0.5 * duration))
     <$> phase) !! i
  = Some (bool_decide (Rabs (ph - 0.5 * period) < 4 * 0.5 * duration)).
Proof. intros H; rewrite list_lookup_fmap, H; reflexivity. Qed.

Lemma zip_and_lookup (l k : list bool) (i : nat) (x y : bool) :
  l !! i = Some x -> k !! i = Some y ->
  zip_with andb l k !! i = Some (x && y).
Proof. intros Hl Hk; rewrite lookup_zip_with, Hl; cbn; rewrite Hk; done. Qed.

Lemma parity_ok_all (e : Z) : Spec.parity_ok "all" e.
Proof. by left. Qed.

Lemma parity_ok_even (e : Z) : Spec.parity_ok "even" e <-> (e `mod` 2 = 0)%Z.
Proof.
  unfold Spec.parity_ok; split; [|by auto].
  intros [H | [[_ H] | [H _]]]; done.
Qed.

Lemma parity_ok_odd (e : Z) : Spec.parity_ok "odd" e <-> (e `mod` 2 = 1)%Z.
Proof.
  unfold Spec.parity_ok; split; [|by auto].
  intros [H | [[H _] | [_ H]]]; done.
Qed.

(** The mask of a valid mode exists and is described index by index. *)
Lemma transit_mask_lookup (mode : string) epochs phase (period duration : R) :
  mode ∈ ["all"; "even"; "odd"]%string ->
  length phase = length epochs ->
  exists mask,
    TransitFitStep.transit_mask mode epochs phase period duration = Ok mask
    /\ length mask = length epochs
    /\ forall i e ph, epochs !! i = Some e -> phase !! i = Some ph ->
         exists b, mask !! i = Some b
           /\ (b = true <->
               Spec.parity_ok mode e /\ Spec.in_window ph period duration).
Proof.
  intros Hmode Hlen.
  unfold TransitFitStep.transit_mask, Spec.in_window, ones_bool.
  repeat (apply elem_of_cons in Hmode as [-> | Hmode]);
    [ | | | by apply elem_of_nil in Hmode ].
  - rewrite decide_True by done; cbn [mbind result_bind].
    rewrite iand_same_length by (by rewrite length_fmap, length_replicate).
    eexists; split; [reflexivity|]; split.
    { rewrite length_zip_with, length_fmap, length_replicate; lia. }
    intros i e ph He Hph.
    eexists; split.
    + apply zip_and_lookup; [|by apply window_lookup].
      apply lookup_replicate_2. by eapply lookup_lt_Some.
    + rewrite andb_true_iff, bool_decide_eq_true.
      pose proof (parity_ok_all e). tauto.
  - rewrite decide_False, decide_True by done; cbn [mbind result_bind].
    rewrite iand_same_length by (by rewrite !length_fmap).
    eexists; split; [reflexivity|]; split.
    { rewrite length_zip_with, !length_fmap; lia. }
    intros i e ph He Hph.
    eexists; split.
    + apply zip_and_lookup; [|by apply window_lookup].
      rewrite list_lookup_fmap, He; reflexivity.
    + rewrite andb_true_iff, !bool_decide_eq_true, parity_ok_even; tauto.
  - rewrite !decide_False, decide_True by done; cbn [mbind result_bind].
    rewrite iand_same_length by (by rewrite !length_fmap).
    eexists; split; [reflexivity|]; split.
    { rewrite length_zip_with, !length_fmap; lia. }
    intros i e ph He Hph.
    eexists; split.
    + apply zip_and_lookup; [|by apply window_lookup].
      rewrite list_lookup_fmap, He; reflexivity.
    + rewrite andb_true_iff, !bool_decide_eq_true, parity_ok_odd; tauto.
Qed.

(** A mode outside the three raises. *)
Lemma transit_mask_other (mode : string) epochs phase (period duration : R) :
  mode ∉ ["all"; "even"; "odd"]%string ->
  TransitFitStep.transit_mask mode epochs phase period duration
  = Raise NotImplementedError.
Proof.
  intros Hmode. unfold TransitFitStep.transit_mask.
  rewrite !decide_False; [reflexivity | | | ];
    intros ->; apply Hmode; set_solver.
Qed.

(** The retained indices of the mask of a valid mode. *)
Lemma transit_mask_retained (mode : string) epochs phase (period duration : R) :
  mode ∈ ["all"; "even"; "odd"]%string ->
  length phase = length epochs ->
  exists mask,
    TransitFitStep.transit_mask mode epochs phase period duration = Ok mask
    /\ length mask = length epochs
    /\ forall i, i ∈ Spec.retained mask <->
         exists e ph, epochs !! i = Some e /\ phase !! i = Some ph
           /\ Spec.parity_ok mode e /\ Spec.in_window ph period duration.
Proof.
  intros Hmode Hlen.
  destruct (transit_mask_lookup mode epochs phase period duration Hmode Hlen)
    as (mask & Hmask & Hlm & Hlook).
  exists mask; split; [exact Hmask|]; split; [exact Hlm|].
  intros i; rewrite elem_of_retained; split.
  - intros Hi.
    assert (Hlt : (i < length epochs)%nat)
      by (rewrite <- Hlm; by eapply lookup_lt_Some).
    destruct (lookup_lt_is_Some_2 epochs i Hlt) as [e He].
    destruct (lookup_lt_is_Some_2 phase i ltac:(lia)) as [ph Hph].
    destruct (Hlook i e ph He Hph) as (b & Hb & Hiff).
    exists e, ph; repeat split; try assumption; apply Hiff; congruence.
  - intros (e & ph & He & Hph & Hpar & Hwin).
    destruct (Hlook i e ph He Hph) as (b & Hb & Hiff).
    rewrite Hb; f_equal; apply Hiff; by split.
Qed.

(** C3: for an observation at index [i] with time [t] and folded phase
    [ph], the mask of a mode among all, even and odd retains [i] if and only
    if the epoch index of [t] passes the parity filter of the mode (none for
    all, remainder 0 modulo 2 for even, remainder 1 for odd) and
    [|ph - 0.5 period| < 4 * 0.5 * duration]. *)
Theorem C3_mask_retains (epoch : R -> R -> R -> Z) (ts : TransitSearch)
    (mode : string) :
  mode ∈ ["all"; "even"; "odd"]%string ->
  length (ts_phase ts) = length (ts_time ts) ->
  exists mask,
    TransitFitStep.transit_mask mode
      ((fun t => epoch t (ts_zero_epoch ts) (ts_period ts)) <$> ts_time ts)
      (ts_phase ts) (ts_period ts) (ts_duration ts) = Ok mask
    /\ length mask = length (ts_time ts)
    /\ forall i t ph, ts_time ts !! i = Some t -> ts_phase ts !! i = Some ph ->
         (i ∈ Spec.retained mask <->
          Spec.parity_ok mode (epoch t (ts_zero_epoch ts) (ts_period ts))
          /\ Spec.in_window ph (ts_period ts) (ts_duration ts)).
Proof.
  intros Hmode Hlen.
  destruct (transit_mask_retained mode
              ((fun t => epoch t (ts_zero_epoch ts) (ts_period ts)) <$> ts_time ts)
              (ts_phase ts) (ts_period ts) (ts_duration ts) Hmode)
    as (mask & Hmask & Hlm & Hret).
  { by rewrite length_fmap. }
  exists mask; split; [exact Hmask|]; split.
  { by rewrite Hlm, length_fmap. }
  intros i t ph Ht Hph; rewrite Hret, list_lookup_fmap, Ht; cbn; split.
  - intros (e & ph' & He & Hph' & Hpar & Hwin); simplify_eq; by split.
  - intros [Hpar Hwin]; eauto 10.
Qed.

Lemma C3_mask_retains_witness :
  exists mask,
    TransitFitStep.transit_mask "even"
      ((fun t => Sample.epoch t (ts_zero_epoch Sample.ts) (ts_period Sample.ts))
         <$> ts_time Sample.ts)
      (ts_phase Sample.ts) (ts_period Sample.ts) (ts_duration Sample.ts)
    = Ok mask
    /\ length mask = 2%nat.
Proof.
  destruct (C3_mask_retains Sample.epoch Sample.ts "even")
    as (mask & Hmask & Hlen & _).
  - by repeat constructor.
  - reflexivity.
  - exists mask; split; [exact Hmask | exact Hlen].
Defined.

(** C4: on one data set the masks of the three modes exist, the mask of all
    contains the union of the masks of even and odd, and the masks of even
    and odd are disjoint. *)
Theorem C4_mask_partition (epochs : list Z) (phase : list R)
    (period duration : R) :
  length phase = length epochs ->
  exists mall meven modd,
    TransitFitStep.transit_mask "all" epochs phase period duration = Ok mall
    /\ TransitFitStep.transit_mask "even" epochs phase period duration
       = Ok meven
    /\ TransitFitStep.transit_mask "odd" epochs phase period duration = Ok modd
    /\ Spec.retained meven ∪ Spec.retained modd ⊆ Spec.retained mall
    /\ Spec.retained meven ∩ Spec.retained modd = ∅.
Proof.
  intros Hlen.
  destruct (transit_mask_retained "all" epochs phase period duration)
    as (mall & Hall & _ & Ra); [by repeat constructor | exact Hlen |].
  destruct (transit_mask_retained "even" epochs phase period duration)
    as (meven & Heven & _ & Re); [by repeat constructor | exact Hlen |].
  destruct (transit_mask_retained "odd" epochs phase period duration)
    as (modd & Hodd & _ & Ro); [by repeat constructor | exact Hlen |].
  exists mall, meven, modd; repeat split; try assumption.
  - intros i Hi. apply Ra.
    apply elem_of_union in Hi as [Hi | Hi];
      [apply Re in Hi | apply Ro in Hi];
      destruct Hi as (e & ph & He & Hph & _ & Hwin);
      exists e, ph; repeat split; try assumption; apply parity_ok_all.
  - apply set_eq; intros i; split; [|set_solver].
    intros Hi; apply elem_of_intersection in Hi as [Hie Hio].
    apply Re in Hie as (e & ph & He & _ & Hpe & _).
    apply Ro in Hio as (e' & ph' & He' & _ & Hpo & _).
    simplify_eq.
    apply parity_ok_even in Hpe; apply parity_ok_odd in Hpo; lia.
Qed.

Lemma C4_mask_partition_witness :
  exists mall meven modd,
    TransitFitStep.transit_mask "all" [0; 1; 2]%Z [1; 1; 1.5] 2 1 = Ok mall
    /\ TransitFitStep.transit_mask "even" [0; 1; 2]%Z [1; 1; 1.5] 2 1
       = Ok meven
    /\ TransitFitStep.transit_mask "odd" [0; 1; 2]%Z [1; 1; 1.5] 2 1 = Ok modd
    /\ Spec.retained meven ∪ Spec.retained modd ⊆ Spec.retained mall
    /\ Spec.retained meven ∩ Spec.retained modd = ∅.
Proof. apply (C4_mask_partition [0; 1; 2]%Z [1; 1; 1.5] 2 1); reflexivity. Defined.

End Mask.

(** ** [unique] *)

Section Unique.

Lemma elem_of_insert_unique (x z : Z) (l : list Z) :
  x ∈ insert_unique z l <-> x = z \/ x ∈ l.
Proof.
  induction l as [|y t IH]; cbn [insert_unique].
  - rewrite list_elem_of_singleton, elem_of_nil; tauto.
  - destruct (Z.ltb_spec z y) as [Hlt | Hge].
    + rewrite (elem_of_cons (y :: t) x z); tauto.
    + destruct (Z.eqb_spec z y) as [-> | Hne].
      * rewrite elem_of_cons; tauto.
      * rewrite !elem_of_cons, IH; tauto.
Qed.

Lemma elem_of_unique (x : Z) (a : list Z) : x ∈ unique a <-> x ∈ a.
Proof.
  unfold unique; induction a as [|y a IH]; cbn [foldr]; [reflexivity|].
  rewrite elem_of_insert_unique, elem_of_cons, IH; reflexivity.
Qed.

Lemma insert_unique_sorted (z : Z) (l : list Z) :
  StronglySorted Z.lt l -> StronglySorted Z.lt (insert_unique z l).
Proof.
  induction 1 as [|y t Ht IH Hy]; cbn [insert_unique].
  - repeat constructor.
  - destruct (Z.ltb_spec z y) as [Hlt | Hge].
    + constructor; [by constructor|].
      constructor; [exact Hlt|].
      eapply Forall_impl; [exact Hy|]; intros; cbn in *; lia.
    + destruct (Z.eqb_spec z y) as [-> | Hne]; [by constructor|].
      constructor; [exact IH|].
      apply Forall_forall; intros x Hx.
      apply elem_of_insert_unique in Hx as [-> | Hx]; [lia|].
      rewrite Forall_forall in Hy; by apply Hy.
Qed.

Lemma unique_sorted (a : list Z) : StronglySorted Z.lt (unique a).
Proof.
  unfold unique; induction a as [|y a IH]; cbn [foldr]; [constructor|].
  by apply insert_unique_sorted.
Qed.

Lemma sorted_lt_NoDup (l : list Z) : StronglySorted Z.lt l -> NoDup l.
Proof.
  induction 1 as [|y t Ht IH Hy]; constructor; [|exact IH].
  rewrite Forall_forall in Hy; intros Hin; apply Hy in Hin; lia.
Qed.

Lemma unique_NoDup (a : list Z) : NoDup (unique a).
Proof. apply sorted_lt_NoDup, unique_sorted. Qed.

End Unique.

(** ** The per-orbit delta log likelihood *)

Section PerOrbit.

Implicit Types (epochs ues : list Z) (fobs fmod o m : list R) (err : R).

Lemma fold_left_Rplus (l : list R) (a : R) :
  fold_left Rplus l a = a + Spec.total l.
Proof.
  unfold Spec.total.
  revert a; induction l as [|x l IH]; intros a; cbn [fold_left foldr]; [lra|].
  rewrite IH; lra.
Qed.

Lemma sum_total (l : list R) : Np.sum l = Spec.total l.
Proof. unfold Np.sum; rewrite fold_left_Rplus; lra. Qed.

(** Selecting with the mask of a test on the epochs keeps the positions
    whose epoch passes the test. *)
Lemma compress_at_epochs {A} (P : Z -> Prop) `{!forall e, Decision (P e)}
    epochs (xs : list A) :
  length xs = length epochs ->
  compress ((fun x => bool_decide (P x)) <$> epochs) xs
  = Spec.at_epochs P epochs xs.
Proof.
  unfold Spec.at_epochs.
  revert xs; induction epochs as [|y epochs IH]; intros [|x xs] Hlen;
    try discriminate Hlen; [reflexivity|].
  injection Hlen as Hlen.
  cbn [fmap list_fmap compress zip zip_with].
  rewrite filter_cons; cbn [fst].
  change (list_fmap Z bool (fun x0 => bool_decide (P x0)) epochs)
    with ((fun x0 => bool_decide (P x0)) <$> epochs).
  destruct (decide (P y)) as [Hy | Hy].
  - rewrite bool_decide_eq_true_2 by done.
    cbn [fmap list_fmap snd]. f_equal. by apply IH.
  - rewrite bool_decide_eq_false_2 by done. by apply IH.
Qed.

(** Selecting with the mask [epochs == e] restricts to the epoch [e]. *)
Lemma compress_restrict {A} (e : Z) epochs (xs : list A) :
  length xs = length epochs ->
  compress ((fun x => bool_decide (x = e)) <$> epochs) xs
  = Spec.restrict e epochs xs.
Proof. apply (compress_at_epochs (fun x => x = e)). Qed.

Lemma length_restrict {A B} (e : Z) epochs (xs : list A) (ys : list B) :
  length xs = length epochs -> length ys = length epochs ->
  length (Spec.restrict e epochs xs) = length (Spec.restrict e epochs ys).
Proof.
  intros Hx Hy. rewrite <- !compress_restrict by done.
  apply length_compress; by rewrite length_fmap.
Qed.

Lemma sq_term (d e : R) : d ^ 2 / e ^ 2 = d² / e².
Proof. rewrite <- !Rsqr_pow2; reflexivity. Qed.

Lemma sq_residuals_array o m err :
  (fun d => d ^ 2 / err ^ 2) <$> zip_with Rminus o m
  = zip_with (fun oi mi => (oi - mi)² / err²) o m.
Proof.
  revert m; induction o as [|x o IH]; intros [|y m]; try reflexivity.
  cbn [zip_with fmap list_fmap].
  change (list_fmap R R (fun d => d ^ 2 / err ^ 2) (zip_with Rminus o m))
    with ((fun d => d ^ 2 / err ^ 2) <$> zip_with Rminus o m).
  rewrite sq_term, IH; reflexivity.
Qed.

Lemma sq_residuals_scalar o err :
  (fun d => d ^ 2 / err ^ 2) <$> ((fun oi => oi - 1) <$> o)
  = zip_with (fun oi mi => (oi - mi)² / err²) o (Spec.flat (length o)).
Proof.
  unfold Spec.flat; induction o as [|x o IH]; [reflexivity|].
  cbn [length replicate zip_with fmap list_fmap].
  change (list_fmap R R (fun d => d ^ 2 / err ^ 2)
            (list_fmap R R (fun oi => oi - 1) o))
    with ((fun d => d ^ 2 / err ^ 2) <$> ((fun oi => oi - 1) <$> o)).
  rewrite sq_term, IH; reflexivity.
Qed.

(** [lnlike_normal] against an array model is the likelihood [LL]. *)
Lemma lnlike_normal_array o m err :
  lnlike_normal o (Array m) err = Spec.LL o m err.
Proof.
  unfold lnlike_normal, Spec.LL, residuals.
  rewrite sum_total, sq_residuals_array; reflexivity.
Qed.

(** [lnlike_normal] against the scalar [1.0] is the likelihood of the flat
    baseline. *)
Lemma lnlike_normal_flat o err :
  lnlike_normal o (Scalar 1) err = Spec.LL o (Spec.flat (length o)) err.
Proof.
  unfold lnlike_normal, Spec.LL, residuals.
  rewrite sum_total, sq_residuals_scalar; reflexivity.
Qed.

Lemma for_epochs_ok ues epochs fobs fmod err :
  length fobs = length epochs -> length fmod = length epochs ->
  TransitFitStep.for_epochs ues epochs fobs fmod err
  = Ok ((fun e =>
           Spec.LL (Spec.restrict e epochs fobs) (Spec.restrict e epochs fmod) err
           - Spec.LL (Spec.restrict e epochs fobs)
                     (Spec.flat (length (Spec.restrict e epochs fobs))) err)
          <$> ues).
Proof.
  intros Ho Hm; induction ues as [|e ues IH]; [reflexivity|].
  cbn [TransitFitStep.for_epochs]; unfold TransitFitStep.epoch_dll.
  rewrite !getmask_same_length by (rewrite length_fmap; congruence).
  cbn [mbind result_bind]; rewrite IH; cbn [mbind result_bind].
  rewrite !compress_restrict, lnlike_normal_array, lnlike_normal_flat by done.
  reflexivity.
Qed.

Lemma per_orbit_dll_ok epochs fobs fmod err :
  length fobs = length epochs -> length fmod = length epochs ->
  TransitFitStep.per_orbit_dll epochs fobs fmod err
  = Ok (unique epochs,
        (fun e =>
           Spec.LL (Spec.restrict e epochs fobs) (Spec.restrict e epochs fmod) err
           - Spec.LL (Spec.restrict e epochs fobs)
                     (Spec.flat (length (Spec.restrict e epochs fobs))) err)
          <$> unique epochs).
Proof.
  intros Ho Hm; unfold TransitFitStep.per_orbit_dll.
  rewrite for_epochs_ok by done; reflexivity.
Qed.

Lemma length_restrict_count {A} (e : Z) epochs (xs : list A) :
  length xs = length epochs ->
  length (Spec.restrict e epochs xs) = length (filter (fun x => x = e) epochs).
Proof.
  unfold Spec.restrict, Spec.at_epochs; rewrite length_fmap.
  revert xs; induction epochs as [|y epochs IH]; intros [|x xs] Hlen;
    try discriminate Hlen; [reflexivity|].
  injection Hlen as Hlen. cbn [zip zip_with].
  rewrite !filter_cons; cbn [fst].
  destruct (decide (y = e)); cbn [length]; rewrite (IH xs Hlen); reflexivity.
Qed.

(** C2: the table of [per_orbit_dll] exists and, for every epoch [e] of the
    masked data, holds at the one position of [e] the value
    [LL(o, m) - LL(o, 1.0)], where [o] and [m] are the observed and model
    fluxes of the points of epoch [e], the noise is one scalar for all
    points, and [LL] is the Gaussian log-likelihood with [n] the number of
    points of the epoch. *)
Theorem C2_per_epoch_dll epochs fobs fmod err :
  length fobs = length epochs -> length fmod = length epochs ->
  exists ues lnl,
    TransitFitStep.per_orbit_dll epochs fobs fmod err = Ok (ues, lnl)
    /\ length lnl = length ues
    /\ forall e, e ∈ epochs ->
         let o := Spec.restrict e epochs fobs in
         let m := Spec.restrict e epochs fmod in
         length o = length (filter (fun x => x = e) epochs)
         /\ length m = length o
         /\ exists i, ues !! i = Some e
              /\ (forall j, ues !! j = Some e -> j = i)
              /\ lnl !! i
                 = Some (Spec.LL o m err
                         - Spec.LL o (Spec.flat (length o)) err).
Proof.
  intros Ho Hm.
  eexists _, _; split; [by apply per_orbit_dll_ok|].
  split; [by rewrite length_fmap|].
  intros e He o m; subst o m.
  split; [by apply length_restrict_count|].
  split; [by apply length_restrict|].
  apply elem_of_unique, list_elem_of_lookup in He as [i Hi].
  exists i; split; [exact Hi|]; split.
  - intros j Hj. eapply NoDup_lookup; eauto using unique_NoDup.
  - rewrite list_lookup_fmap, Hi; reflexivity.
Qed.

Lemma C2_per_epoch_dll_witness :
  exists ues lnl,
    TransitFitStep.per_orbit_dll [0; 0; 1]%Z [0.99; 1; 0.98] [0.99; 1; 1] 0.01
    = Ok (ues, lnl)
    /\ length lnl = length ues.
Proof.
  destruct (C2_per_epoch_dll [0; 0; 1]%Z [0.99; 1; 0.98] [0.99; 1; 1] 0.01)
    as (ues & lnl & Hrun & Hlen & _); [reflexivity | reflexivity |].
  exists ues, lnl; split; [exact Hrun | exact Hlen].
Defined.










End PerOrbit.

(** ** The fit step as a whole *)

Section Call.

Variable epoch : R -> R -> R -> Z.
Variable fit : list R -> list R -> R * R -> Posterior.

(** Run on as many fluxes as times, the fit returns one model flux per
    time. *)
Hypothesis fit_shape :
  forall time fobs prior,
    length fobs = length time ->
    length (post_fmod (fit time fobs prior)) = length time.

Lemma amin_nonempty (a : list R) : a <> [] -> exists x, amin a = Ok x.
Proof. destruct a as [|x t]; [done | intros _; by eexists]. Qed.

(** The step succeeds as soon as the mask exists and retains a point; its
    outcome is then determined as follows. *)
Lemma call_eval (ts : TransitSearch) (mode : string) (mask : list bool) :
  let epochs :=
    (fun t => epoch t (ts_zero_epoch ts) (ts_period ts)) <$> ts_time ts in
  let time := compress mask (ts_time ts) in
  let fobs := compress mask (ts_flux ts) in
  let post := fit time fobs (TransitFitStep.k2_prior mode ts) in
  let lnl :=
    (fun e =>
       Spec.LL (Spec.restrict e (compress mask epochs) fobs)
               (Spec.restrict e (compress mask epochs) (post_fmod post))
               (Rpower 10 (post_pv7 post))
       - Spec.LL (Spec.restrict e (compress mask epochs) fobs)
                 (Spec.flat (length (Spec.restrict e (compress mask epochs) fobs)))
                 (Rpower 10 (post_pv7 post)))
      <$> unique (compress mask epochs) in
  TransitFitStep.transit_mask mode epochs (ts_phase ts) (ts_period ts)
                              (ts_duration ts) = Ok mask ->
  length mask = length (ts_time ts) ->
  length (ts_flux ts) = length (ts_time ts) ->
  time <> [] ->
  TransitFitStep.__call__ epoch fit ts mode
  = Ok {| fit_mask := mask;
          fit_time := time;
          fit_fobs := fobs;
          fit_dll_epochs := unique (compress mask epochs);
          fit_dll_values := lnl;
          fit_delta_bic := TransitFitStep.score mode lnl (length time) |}.
Proof.
  intros epochs time fobs post lnl Hmask Hlm Hlf Hne.
  unfold TransitFitStep.__call__.
  fold epochs; rewrite Hmask; cbn [mbind result_bind].
  rewrite !getmask_same_length
    by (subst epochs; rewrite ?length_fmap; congruence).
  cbn [mbind result_bind]; fold time fobs.
  destruct (amin_nonempty time Hne) as [tmin ->].
  cbn [mbind result_bind]; fold post.
  assert (Hlen : length fobs = length (compress mask epochs)).
  { apply length_compress; [congruence|].
    subst epochs; by rewrite length_fmap. }
  rewrite per_orbit_dll_ok; [reflexivity | exact Hlen |].
  assert (Hft : length fobs = length time)
    by (apply length_compress; congruence).
  subst post; rewrite fit_shape by exact Hft. congruence.
Qed.

(** Without a retained observation the step raises at
    [self.time.min()]. *)
Lemma call_empty_selection (ts : TransitSearch) (mode : string)
    (mask : list bool) :
  TransitFitStep.transit_mask mode
    ((fun t => epoch t (ts_zero_epoch ts) (ts_period ts)) <$> ts_time ts)
    (ts_phase ts) (ts_period ts) (ts_duration ts) = Ok mask ->
  length mask = length (ts_time ts) ->
  length (ts_flux ts) = length (ts_time ts) ->
  compress mask (ts_time ts) = [] ->
  TransitFitStep.__call__ epoch fit ts mode = Raise ValueError.
Proof.
  intros Hmask Hlm Hlf Hempty.
  unfold TransitFitStep.__call__.
  rewrite Hmask; cbn [mbind result_bind].
  rewrite !getmask_same_length by (rewrite ?length_fmap; congruence).
  cbn [mbind result_bind]; rewrite Hempty; reflexivity.
Qed.

End Call.

(** ** The sample data set *)

Section SampleFacts.

Lemma sample_fit_shape (time fobs : list R) (prior : R * R) :
  length fobs = length time ->
  length (post_fmod (Sample.fit time fobs prior)) = length time.
Proof. intros H; exact H. Qed.

Lemma sample_window_0 : Spec.in_window 1 2 1.
Proof. unfold Spec.in_window, Rabs; destruct (Rcase_abs _); lra. Qed.

Lemma sample_window_1 : Spec.in_window 1.5 2 1.
Proof. unfold Spec.in_window, Rabs; destruct (Rcase_abs _); lra. Qed.

Lemma sample_mask_all :
  TransitFitStep.transit_mask "all"
    ((fun t => Sample.epoch t (ts_zero_epoch Sample.ts) (ts_period Sample.ts))
       <$> ts_time Sample.ts)
    (ts_phase Sample.ts) (ts_period Sample.ts) (ts_duration Sample.ts)
  = Ok [true; true].
Proof.
  unfold TransitFitStep.transit_mask, Sample.ts.
  cbn [ts_time ts_phase ts_period ts_zero_epoch ts_duration
       fmap list_fmap length].
  rewrite decide_True by reflexivity.
  cbn [mbind result_bind].
  rewrite iand_same_length by reflexivity.
  rewrite (bool_decide_eq_true_2 _ sample_window_0).
  rewrite (bool_decide_eq_true_2 _ sample_window_1).
  reflexivity.
Qed.

Lemma sample_retained : size (Spec.retained [true; true]) = 2%nat.
Proof. by rewrite <- (length_compress_retained [true; true] [0; 0.5]). Qed.

End SampleFacts.

(** ** The delta-BIC score of the fit of all transits *)

Section Score.

Lemma score_all (lnl : list R) (n : nat) :
  TransitFitStep.score "all" lnl n
  = Some (Np.sum lnl
          + 0.5 * IZR (Spec.k_flat - Spec.k_transit) * ln (INR n)).
Proof.
  unfold TransitFitStep.score; rewrite decide_True by reflexivity.
  reflexivity.
Qed.

(** C1, as the code has it: in the mode all, on data with one phase and one
    flux per time and at least one observation inside the window, the step
    succeeds and its score is the sum of the per-epoch delta
    log-likelihoods plus [0.5 (k_flat - k_transit) log N], that is minus
    [4.5 log N], with [k_transit = 9], [k_flat = 0] and [N] the number of
    retained observations. *)
Theorem C1_delta_bic_all (epoch : R -> R -> R -> Z)
    (fit : list R -> list R -> R * R -> Posterior) (ts : TransitSearch) :
  (forall time fobs prior, length fobs = length time ->
     length (post_fmod (fit time fobs prior)) = length time) ->
  length (ts_phase ts) = length (ts_time ts) ->
  length (ts_flux ts) = length (ts_time ts) ->
  (exists i ph, ts_phase ts !! i = Some ph
     /\ Spec.in_window ph (ts_period ts) (ts_duration ts)) ->
  exists r,
    TransitFitStep.__call__ epoch fit ts "all" = Ok r
    /\ length (fit_time r) = size (Spec.retained (fit_mask r))
    /\ (1 <= size (Spec.retained (fit_mask r)))%nat
    /\ fit_delta_bic r
       = Some (Np.sum (fit_dll_values r)
               + 0.5 * IZR (Spec.k_flat - Spec.k_transit)
                 * ln (INR (size (Spec.retained (fit_mask r)))))
    /\ fit_delta_bic r
       = Some (Np.sum (fit_dll_values r)
               - 4.5 * ln (INR (size (Spec.retained (fit_mask r))))).
Proof.
  intros Hfit Hph Hfl (i & ph & Hi & Hwin).
  destruct (transit_mask_retained "all"
              ((fun t => epoch t (ts_zero_epoch ts) (ts_period ts)) <$> ts_time ts)
              (ts_phase ts) (ts_period ts) (ts_duration ts))
    as (mask & Hmask & Hlm & Hret);
    [by repeat constructor | by rewrite length_fmap |].
  rewrite length_fmap in Hlm.
  assert (Hin : i ∈ Spec.retained mask).
  { apply Hret.
    destruct (lookup_lt_is_Some_2 (ts_time ts) i) as [t Ht].
    { rewrite <- Hph; by eapply lookup_lt_Some. }
    exists (epoch t (ts_zero_epoch ts) (ts_period ts)), ph.
    rewrite list_lookup_fmap, Ht.
    repeat split; [exact Hi | apply parity_ok_all | exact Hwin]. }
  assert (Hne : compress mask (ts_time ts) <> []).
  { apply elem_of_retained in Hin. by eapply compress_nonempty. }
  pose proof (call_eval epoch fit Hfit ts "all" mask Hmask Hlm Hfl Hne)
    as Hcall.
  cbv zeta in Hcall.
  eexists; split; [exact Hcall|].
  cbn [fit_time fit_mask fit_delta_bic fit_dll_values].
  assert (HN : length (compress mask (ts_time ts)) = size (Spec.retained mask))
    by (by apply length_compress_retained).
  split; [exact HN|]; split.
  { rewrite <- HN. destruct (compress mask (ts_time ts)); [done | cbn; lia]. }
  rewrite score_all, HN; split; [reflexivity|].
  f_equal. unfold Spec.k_flat, Spec.k_transit.
  replace (0 - 9)%Z with (-9)%Z by lia. lra.
Qed.

(** The step succeeds on the sample data set. *)
Lemma sample_call :
  exists r,
    TransitFitStep.__call__ Sample.epoch Sample.fit Sample.ts "all" = Ok r
    /\ fit_mask r = [true; true]
    /\ fit_delta_bic r
       = Some (delta_bic (Np.sum (fit_dll_values r)) 0 9 2).
Proof.
  eexists; split.
  - apply (call_eval Sample.epoch Sample.fit sample_fit_shape Sample.ts "all"
             [true; true] sample_mask_all); [reflexivity | reflexivity | done].
  - split; reflexivity.
Qed.

(** The claim of a penalty [+ 0.5 (k_transit - k_flat) log N] fails on the
    sample data set, where [N = 2]. *)
Lemma C1_counterexample :
  exists r,
    TransitFitStep.__call__ Sample.epoch Sample.fit Sample.ts "all" = Ok r
    /\ fit_delta_bic r
       <> Some (Np.sum (fit_dll_values r)
                + 0.5 * IZR (Spec.k_transit - Spec.k_flat)
                  * ln (INR (size (Spec.retained (fit_mask r))))).
Proof.
  destruct sample_call as (r & Hcall & Hmask & Hbic).
  exists r; split; [exact Hcall|].
  rewrite Hbic, Hmask, sample_retained, delta_bic_call_site, INR_2.
  unfold Spec.k_transit, Spec.k_flat.
  replace (9 - 0)%Z with 9%Z by lia.
  intros Heq; injection Heq as Heq.
  pose proof ln_2_pos. lra.
Qed.

Lemma C1_delta_bic_all_witness :
  exists r,
    TransitFitStep.__call__ Sample.epoch Sample.fit Sample.ts "all" = Ok r
    /\ fit_delta_bic r
       = Some (Np.sum (fit_dll_values r)
               - 4.5 * ln (INR (size (Spec.retained (fit_mask r))))).
Proof.
  destruct (C1_delta_bic_all Sample.epoch Sample.fit Sample.ts)
    as (r & Hcall & _ & _ & _ & Hbic).
  - exact sample_fit_shape.
  - reflexivity.
  - reflexivity.
  - exists 0%nat, 1; split; [reflexivity | exact sample_window_0].
  - exists r; split; [exact Hcall | exact Hbic].
Defined.

(** The score of the call site at two sizes. *)
Lemma score_all_decreasing (lnl : list R) (n n' : nat) :
  (1 <= n)%nat -> (n < n')%nat ->
  delta_bic (Np.sum lnl) 0 9 n' < delta_bic (Np.sum lnl) 0 9 n.
Proof.
  intros Hn Hlt; rewrite !delta_bic_call_site.
  pose proof (ln_INR_lt n n' Hn Hlt). lra.
Qed.

(** C7, as the code has it: with the summed delta log-likelihood fixed and
    the parameter counts of the call site, the score of the mode all is
    strictly decreasing in the number of retained observations: for
    [N' > N >= 1] the score at [N'] is below the score at [N]. *)
Theorem C7_delta_bic_decreasing (lnl : list R) (n n' : nat) :
  (1 <= n)%nat -> (n < n')%nat ->
  exists a b,
    TransitFitStep.score "all" lnl n = Some a
    /\ TransitFitStep.score "all" lnl n' = Some b
    /\ b < a.
Proof.
  intros Hn Hlt.
  exists (delta_bic (Np.sum lnl) 0 9 n), (delta_bic (Np.sum lnl) 0 9 n').
  unfold TransitFitStep.score; rewrite decide_True by reflexivity.
  repeat split. by apply score_all_decreasing.
Qed.

Lemma C7_delta_bic_decreasing_witness :
  exists a b,
    TransitFitStep.score "all" [0] 1 = Some a
    /\ TransitFitStep.score "all" [0] 2 = Some b
    /\ b < a.
Proof. apply (C7_delta_bic_decreasing [0] 1 2); lia. Defined.

(** The score does not increase from [N = 1] to [N' = 2]: it falls. *)
Lemma C7_counterexample :
  exists a b,
    TransitFitStep.score "all" [0] 1 = Some a
    /\ TransitFitStep.score "all" [0] 2 = Some b
    /\ ~ (a <= b).
Proof.
  exists (delta_bic (Np.sum [0]) 0 9 1), (delta_bic (Np.sum [0]) 0 9 2).
  unfold TransitFitStep.score; rewrite decide_True by reflexivity.
  repeat split.
  pose proof (score_all_decreasing [0] 1 2 ltac:(lia) ltac:(lia)). lra.
Qed.

End Score.

(** ** The prior on the squared radius ratio *)

Section Prior.

Lemma k2_prior_parity (mode : string) (ts : TransitSearch) :
  mode ∈ ["even"; "odd"]%string ->
  TransitFitStep.k2_prior mode ts
  = (Rmax 0.0001 (0.5 * ts_tf_all_k2_med ts),
     Rmax 0.0064 (Rmin 0.36 (2 * ts_tf_all_k2_med ts))).
Proof.
  intros Hmode; unfold TransitFitStep.k2_prior.
  rewrite decide_False.
  2:{ intros ->.
      repeat (apply elem_of_cons in Hmode as [Hmode | Hmode];
              [discriminate Hmode|]).
      by apply elem_of_nil in Hmode. }
  cbv zeta; f_equal; repeat f_equal; cbn [pow]; lra.
Qed.

(** C6, as the code has it: for the modes even and odd the lower bound is
    at least [0.01²], the upper bound is at most [0.6²] and at least
    [0.08²]; the floor [0.08²] is on the upper bound, not on the width. The
    interval is at least [0.08²] wide when the reference median lies
    between [0.08² / 1.5] and [0.7072], and the lower bound is below the
    upper bound when the reference median is below [0.72]. *)
Theorem C6_k2_prior_bounds (mode : string) (ts : TransitSearch) :
  mode ∈ ["even"; "odd"]%string ->
  let k2 := ts_tf_all_k2_med ts in
  let lo := (TransitFitStep.k2_prior mode ts).1 in
  let hi := (TransitFitStep.k2_prior mode ts).2 in
  0.01 ^ 2 <= lo
  /\ hi <= 0.6 ^ 2
  /\ 0.08 ^ 2 <= hi
  /\ (0.08 ^ 2 / 1.5 <= k2 <= 0.7072 -> 0.08 ^ 2 <= hi - lo)
  /\ (k2 < 0.72 -> lo < hi).
Proof.
  intros Hmode k2 lo hi; subst lo hi.
  rewrite (k2_prior_parity mode ts Hmode); fold k2; cbn [fst snd pow].
  unfold Rmax, Rmin.
  repeat destruct (Rle_dec _ _); repeat split; intros; lra.
Qed.

Lemma C6_k2_prior_bounds_witness :
  0.01 ^ 2 <= (TransitFitStep.k2_prior "even" Sample.ts).1
  /\ (TransitFitStep.k2_prior "even" Sample.ts).2 <= 0.6 ^ 2
  /\ 0.08 ^ 2
     <= (TransitFitStep.k2_prior "even" Sample.ts).2
        - (TransitFitStep.k2_prior "even" Sample.ts).1.
Proof.
  destruct (C6_k2_prior_bounds "even" Sample.ts) as (Hlo & Hhi & _ & Hw & _).
  - by repeat constructor.
  - repeat split; [exact Hlo | exact Hhi |].
    apply Hw; cbn [Sample.ts ts_tf_all_k2_med pow]; lra.
Defined.

(** With a reference median of 0.001 the interval is [0.0005, 0.0064]:
    narrower than [0.08²]. *)
Lemma C6_counterexample :
  (TransitFitStep.k2_prior "even" Sample.ts_shallow).1 = 0.0005
  /\ (TransitFitStep.k2_prior "even" Sample.ts_shallow).2 = 0.0064
  /\ ~ ((TransitFitStep.k2_prior "even" Sample.ts_shallow).2
        - (TransitFitStep.k2_prior "even" Sample.ts_shallow).1
        >= 0.08 ^ 2).
Proof.
  rewrite k2_prior_parity by (by repeat constructor).
  cbn [fst snd Sample.ts_shallow ts_tf_all_k2_med pow].
  unfold Rmax, Rmin.
  repeat destruct (Rle_dec _ _); repeat split; try lra.
  all: intros ?; lra.
Qed.

End Prior.

(** ** The mean delta log likelihood *)

Section MeanDll.

Lemma total_exp_shift (ll : list R) (lm : R) :
  Spec.total ((fun x => exp (x - lm)) <$> ll)
  = Spec.total (exp <$> ll) * exp (- lm).
Proof.
  unfold Spec.total; induction ll as [|x ll IH]; cbn [fmap list_fmap foldr].
  - lra.
  - change (list_fmap R R (fun x => exp (x - lm)) ll)
      with ((fun x => exp (x - lm)) <$> ll).
    change (list_fmap R R exp ll) with (exp <$> ll).
    rewrite IH. unfold Rminus at 1. rewrite exp_plus. lra.
Qed.

Lemma total_exp_nonneg (ll : list R) : 0 <= Spec.total (exp <$> ll).
Proof.
  unfold Spec.total; induction ll as [|x ll IH]; cbn [fmap list_fmap foldr].
  - lra.
  - change (list_fmap R R exp ll) with (exp <$> ll).
    pose proof (exp_pos x). lra.
Qed.

Lemma total_exp_pos (ll : list R) : ll <> [] -> 0 < Spec.total (exp <$> ll).
Proof.
  destruct ll as [|x ll]; [done | intros _].
  unfold Spec.total; cbn [fmap list_fmap foldr].
  change (list_fmap R R exp ll) with (exp <$> ll).
  pose proof (exp_pos x). pose proof (total_exp_nonneg ll).
  unfold Spec.total in *. lra.
Qed.

Lemma amax_nonempty (a : list R) : a <> [] -> exists x, amax a = Ok x.
Proof. destruct a as [|x t]; [done | intros _; by eexists]. Qed.

(** The shifted mean equals the closed form; the shift [lm] may be any
    number. *)
Lemma shifted_log_mean_exp (ll : list R) (lm : R) :
  ll <> [] ->
  ln (Np.mean ((fun x => exp (x - lm)) <$> ll)) + lm = Spec.log_mean_exp ll.
Proof.
  intros Hne; unfold Np.mean, Spec.log_mean_exp.
  rewrite sum_total, total_exp_shift, length_fmap.
  assert (Hn : 0 < INR (length ll)).
  { apply lt_0_INR. destruct ll; [done | cbn [length]; lia]. }
  pose proof (total_exp_pos ll Hne) as HT.
  replace (Spec.total (exp <$> ll) * exp (- lm) / INR (length ll))
    with (Spec.total (exp <$> ll) / INR (length ll) * exp (- lm))
    by (field; lra).
  rewrite ln_mult, ln_exp; [lra | | apply exp_pos].
  by apply Rdiv_lt_0_compat.
Qed.

Lemma mean_dll_closed_form (ll : list R) :
  ll <> [] -> TransitFitStep.mean_dll ll = Ok (Spec.log_mean_exp ll).
Proof.
  intros Hne; unfold TransitFitStep.mean_dll.
  destruct (amax_nonempty ll Hne) as [lm ->]; cbn [mbind result_bind].
  by rewrite shifted_log_mean_exp.
Qed.

Lemma mean_dll_empty : TransitFitStep.mean_dll [] = Raise ValueError.
Proof. reflexivity. Qed.

End MeanDll.

(** ** The header cards of the mean delta log likelihood *)

Section Header.

Implicit Types (ep : list Z) (ll : list R) (h : list Card).

Lemma at_epochs_nonempty {A} (P : Z -> Prop) `{!forall e, Decision (P e)}
    ep (xs : list A) :
  Spec.at_epochs P ep xs <> [] -> xs <> [].
Proof.
  intros Hne ->; apply Hne.
  unfold Spec.at_epochs; by destruct ep.
Qed.

(** In the mode all, with both parities present, three cards are appended. *)
Lemma add_to_fits_all ep ll h :
  length ep = length ll ->
  Spec.at_epochs (fun e => e `mod` 2 = 0)%Z ep ll <> [] ->
  Spec.at_epochs (fun e => e `mod` 2 ≠ 0)%Z ep ll <> [] ->
  TransitFitStep.add_to_fits true "all" ep ll h
  = (h ++ [ {| keyword := "TFa_DLLA";
               cvalue := Spec.log_mean_exp ll;
               comment := "Mean per-orbit delta log likelihood" |};
            {| keyword := "TFA_DLLO";
               cvalue := Spec.log_mean_exp
                           (Spec.at_epochs (fun e => e `mod` 2 = 0)%Z ep ll);
               comment := "Mean per-orbit delta log likelihood (odd)" |};
            {| keyword := "TFA_DLLE";
               cvalue := Spec.log_mean_exp
                           (Spec.at_epochs (fun e => e `mod` 2 ≠ 0)%Z ep ll);
               comment := "Mean per-orbit delta log likelihood (even)" |} ],
     Ok tt).
Proof.
  intros Hlen He Ho.
  pose proof (at_epochs_nonempty _ ep ll He) as Hne.
  unfold TransitFitStep.add_to_fits, TransitFitStep.append_card,
    se_bind, se_lift, se_modify.
  cbn [TransitFitStep.mode_tag].
  rewrite decide_True by reflexivity.
  rewrite (mean_dll_closed_form ll Hne).
  rewrite !getmask_same_length by (by rewrite length_fmap).
  rewrite (compress_at_epochs (fun e => e `mod` 2 = 0)%Z) by done.
  rewrite (compress_at_epochs (fun e => e `mod` 2 ≠ 0)%Z) by done.
  rewrite (mean_dll_closed_form _ He), (mean_dll_closed_form _ Ho).
  rewrite <- !app_assoc; reflexivity.
Qed.

(** In the modes even and odd one card is appended. *)
Lemma add_to_fits_parity (mode : string) ep ll h :
  mode ∈ ["even"; "odd"]%string -> ll <> [] ->
  exists c,
    TransitFitStep.mode_tag mode = Ok c
    /\ TransitFitStep.add_to_fits true mode ep ll h
       = (h ++ [ {| keyword := "TF" +:+ c +:+ "_DLLA";
                    cvalue := Spec.log_mean_exp ll;
                    comment := "Mean per-orbit delta log likelihood" |} ],
          Ok tt).
Proof.
  intros Hmode Hne.
  unfold TransitFitStep.add_to_fits, TransitFitStep.append_card,
    se_bind, se_lift, se_modify, se_ret.
  rewrite (mean_dll_closed_form ll Hne).
  repeat (apply elem_of_cons in Hmode as [-> | Hmode]);
    [ | | by apply elem_of_nil in Hmode ];
    (eexists; split; [reflexivity|]);
    cbn [TransitFitStep.mode_tag]; rewrite decide_False by done; reflexivity.
Qed.

(** A step that was not fitted leaves the header alone. *)
Lemma add_to_fits_unfitted (mode : string) ep ll h :
  TransitFitStep.add_to_fits false mode ep ll h = (h, Ok tt).
Proof. reflexivity. Qed.

(** Without an epoch of even index the step raises after the first card. *)
Lemma add_to_fits_no_even ep ll h :
  length ep = length ll -> ll <> [] ->
  Spec.at_epochs (fun e => e `mod` 2 = 0)%Z ep ll = [] ->
  TransitFitStep.add_to_fits true "all" ep ll h
  = (h ++ [ {| keyword := "TFa_DLLA";
               cvalue := Spec.log_mean_exp ll;
               comment := "Mean per-orbit delta log likelihood" |} ],
     Raise ValueError).
Proof.
  intros Hlen Hne He.
  unfold TransitFitStep.add_to_fits, TransitFitStep.append_card,
    se_bind, se_lift, se_modify.
  cbn [TransitFitStep.mode_tag].
  rewrite decide_True by reflexivity.
  rewrite (mean_dll_closed_form ll Hne).
  rewrite !getmask_same_length by (by rewrite length_fmap).
  rewrite (compress_at_epochs (fun e => e `mod` 2 = 0)%Z) by done.
  rewrite He; reflexivity.
Qed.

(** C5: for every non-empty list [vals] of delta log-likelihoods the
    summary [log(mean(exp(vals - max vals))) + max vals] is computed and
    equals [log(mean(exp(vals)))]; in the mode all, with both parities
    present, the three values written to the header are the closed forms
    of the full list and of its two parity sublists. *)
Theorem C5_mean_dll_closed_form (vals : list R) ep ll h :
  vals <> [] ->
  length ep = length ll ->
  Spec.at_epochs (fun e => e `mod` 2 = 0)%Z ep ll <> [] ->
  Spec.at_epochs (fun e => e `mod` 2 ≠ 0)%Z ep ll <> [] ->
  TransitFitStep.mean_dll vals = Ok (Spec.log_mean_exp vals)
  /\ exists h',
       TransitFitStep.add_to_fits true "all" ep ll h = (h ++ h', Ok tt)
       /\ cvalue <$> h'
          = [ Spec.log_mean_exp ll;
              Spec.log_mean_exp
                (Spec.at_epochs (fun e => e `mod` 2 = 0)%Z ep ll);
              Spec.log_mean_exp
                (Spec.at_epochs (fun e => e `mod` 2 ≠ 0)%Z ep ll) ].
Proof.
  intros HS Hlen He Ho; split; [by apply mean_dll_closed_form|].
  eexists; split; [by apply add_to_fits_all | reflexivity].
Qed.

Lemma C5_mean_dll_closed_form_witness :
  TransitFitStep.mean_dll [-500; 0; 500]
  = Ok (Spec.log_mean_exp [-500; 0; 500]).
Proof.
  apply (C5_mean_dll_closed_form [-500; 0; 500] [0; 1]%Z [1; 2] []);
    [done | reflexivity | |]; vm_compute; discriminate.
Defined.

(** C10: in the mode all the card with the keyword [TFA_DLLO], commented
    as odd, holds the summary of the values at the epochs of even index
    (remainder 0 modulo 2), and the card with the keyword [TFA_DLLE],
    commented as even, holds the summary of the values at the epochs of odd
    index (remainder different from 0). *)
Theorem C10_parity_cards ep ll h :
  length ep = length ll ->
  Spec.at_epochs (fun e => e `mod` 2 = 0)%Z ep ll <> [] ->
  Spec.at_epochs (fun e => e `mod` 2 ≠ 0)%Z ep ll <> [] ->
  exists a o e,
    TransitFitStep.add_to_fits true "all" ep ll h = (h ++ [a; o; e], Ok tt)
    /\ keyword o = "TFA_DLLO"%string
    /\ comment o = "Mean per-orbit delta log likelihood (odd)"%string
    /\ TransitFitStep.mean_dll
         (Spec.at_epochs (fun e => e `mod` 2 = 0)%Z ep ll) = Ok (cvalue o)
    /\ keyword e = "TFA_DLLE"%string
    /\ comment e = "Mean per-orbit delta log likelihood (even)"%string
    /\ TransitFitStep.mean_dll
         (Spec.at_epochs (fun e => e `mod` 2 ≠ 0)%Z ep ll) = Ok (cvalue e).
Proof.
  intros Hlen He Ho.
  eexists _, _, _; split; [by apply add_to_fits_all|].
  cbn [keyword comment cvalue].
  repeat split; by apply mean_dll_closed_form.
Qed.

Lemma C10_parity_cards_witness :
  exists a o e,
    TransitFitStep.add_to_fits true "all" [0; 1]%Z [1; 2] []
    = ([a; o; e], Ok tt)
    /\ keyword o = "TFA_DLLO"%string
    /\ TransitFitStep.mean_dll [1] = Ok (cvalue o)
    /\ keyword e = "TFA_DLLE"%string
    /\ TransitFitStep.mean_dll [2] = Ok (cvalue e).
Proof.
  destruct (C10_parity_cards [0; 1]%Z [1; 2] [])
    as (a & o & e & Hrun & Hko & _ & Hvo & Hke & _ & Hve);
    [reflexivity | vm_compute; discriminate | vm_compute; discriminate |].
  exists a, o, e; repeat split; assumption.
Defined.

End Header.

(** ** The constructor *)

Section Constructor.

Variable OTSStep__init__ : TransitSearch -> SE (gmap string value) unit.

Implicit Types (ts : TransitSearch) (mode title : string)
  (self base : gmap string value).

(** A failed assertion is the whole run: the instance is left as it was and
    the base class is not reached. *)
Lemma init_invalid ts mode title (nsamples : Z) (exptime : R)
    (use_opencl use_tqdm : bool) self :
  mode ∉ ["all"; "even"; "odd"]%string ->
  TransitFitStep.__init__ OTSStep__init__ ts mode title nsamples exptime
    use_opencl use_tqdm self
  = (self, Raise AssertionError).
Proof.
  intros Hmode; unfold TransitFitStep.__init__, se_bind at 1.
  unfold py_assert, se_lift.
  by rewrite bool_decide_eq_false_2.
Qed.

(** Past the assertion the run is the one of the base class followed by the
    assignments, none of which raises. *)
Lemma init_valid ts mode title (nsamples : Z) (exptime : R)
    (use_opencl use_tqdm : bool) self base :
  mode ∈ ["all"; "even"; "odd"]%string ->
  OTSStep__init__ ts self = (base, Ok tt) ->
  exists self',
    TransitFitStep.__init__ OTSStep__init__ ts mode title nsamples exptime
      use_opencl use_tqdm self
    = (self', Ok tt)
    /\ self' !! "mode"%string = Some (VStr mode)
    /\ self' !! "title"%string = Some (VStr title)
    /\ self' !! "lpf"%string = Some VNone
    /\ self' !! "dll_values"%string = Some VNone.
Proof.
  intros Hmode Hbase.
  unfold TransitFitStep.__init__, TransitFitStep.setattr, se_bind,
    py_assert, se_lift, se_modify.
  rewrite bool_decide_eq_true_2 by exact Hmode.
  rewrite Hbase.
  eexists; split; [reflexivity|].
  repeat split; by simplify_map_eq.
Qed.

(** When the base class raises, so does the constructor, with the instance
    as the base class left it. *)
Lemma init_base_raises ts mode title (nsamples : Z) (exptime : R)
    (use_opencl use_tqdm : bool) self base (e : exn) :
  mode ∈ ["all"; "even"; "odd"]%string ->
  OTSStep__init__ ts self = (base, Raise e) ->
  TransitFitStep.__init__ OTSStep__init__ ts mode title nsamples exptime
    use_opencl use_tqdm self
  = (base, Raise e).
Proof.
  intros Hmode Hbase.
  unfold TransitFitStep.__init__, se_bind at 1 2.
  unfold py_assert, se_lift.
  rewrite bool_decide_eq_true_2 by exact Hmode.
  by rewrite Hbase.
Qed.

End Constructor.

(** C9: on a fresh instance, a mode outside all, even and odd makes the
    constructor raise at its assertion with no attribute set and the base
    class not run; a mode among the three passes the assertion, and the
    constructor succeeds once the initialiser of the base class does. *)
Theorem C9_init_mode_guard
    (OTSStep__init__ : TransitSearch -> SE (gmap string value) unit)
    (ts : TransitSearch) (mode title : string) (nsamples : Z) (exptime : R)
    (use_opencl use_tqdm : bool) :
  (mode ∉ ["all"; "even"; "odd"]%string ->
   TransitFitStep.__init__ OTSStep__init__ ts mode title nsamples exptime
     use_opencl use_tqdm ∅
   = (∅, Raise AssertionError))
  /\ (mode ∈ ["all"; "even"; "odd"]%string ->
      forall base, OTSStep__init__ ts ∅ = (base, Ok tt) ->
      exists self,
        TransitFitStep.__init__ OTSStep__init__ ts mode title nsamples exptime
          use_opencl use_tqdm ∅
        = (self, Ok tt)
        /\ self !! "mode"%string = Some (VStr mode)).
Proof.
  split.
  - apply init_invalid.
  - intros Hmode base Hbase.
    destruct (init_valid OTSStep__init__ ts mode title nsamples exptime
                use_opencl use_tqdm ∅ base Hmode Hbase)
      as (self & Hrun & Hm & _).
    by exists self.
Qed.

Lemma C9_init_mode_guard_witness :
  TransitFitStep.__init__ Sample.OTSStep__init__ Sample.ts "both" "Transit fit"
    1 1 false true ∅
  = (∅, Raise AssertionError)
  /\ exists self,
       TransitFitStep.__init__ Sample.OTSStep__init__ Sample.ts "odd"
         "Transit fit" 1 1 false true ∅
       = (self, Ok tt)
       /\ self !! "mode"%string = Some (VStr "odd").
Proof.
  split.
  - destruct (C9_init_mode_guard Sample.OTSStep__init__ Sample.ts "both"
                "Transit fit" 1 1 false true) as [Hraise _].
    apply Hraise; intros Hin.
    repeat (apply elem_of_cons in Hin as [Hin | Hin]; [discriminate Hin|]).
    by apply elem_of_nil in Hin.
  - destruct (C9_init_mode_guard Sample.OTSStep__init__ Sample.ts "odd"
                "Transit fit" 1 1 false true) as [_ Hok].
    eapply Hok; [by repeat constructor | reflexivity].
Defined.

(** ** Further properties of the mask *)

Section MaskMore.

Implicit Types (epochs : list Z) (phase : list R).

Lemma in_window_nonpositive (ph period duration : R) :
  duration <= 0 -> ~ Spec.in_window ph period duration.
Proof.
  unfold Spec.in_window; intros Hd Hw.
  pose proof (Rabs_pos (ph - 0.5 * period)). lra.
Qed.

Lemma in_window_mono (ph period d d' : R) :
  d <= d' -> Spec.in_window ph period d -> Spec.in_window ph period d'.
Proof. unfold Spec.in_window; intros; lra. Qed.

Lemma parity_even_or_odd (e : Z) :
  Spec.parity_ok "even" e \/ Spec.parity_ok "odd" e.
Proof.
  rewrite parity_ok_even, parity_ok_odd.
  pose proof (Z.mod_pos_bound e 2 ltac:(lia)). lia.
Qed.

(** X1: The mask of all transits is exactly the union of the masks of the even
    and of the odd transits: with the remainder of Python, negative epoch
    indices are even or odd too. *)
Theorem mask_all_is_union epochs phase (period duration : R) :
  length phase = length epochs ->
  exists mall meven modd,
    TransitFitStep.transit_mask "all" epochs phase period duration = Ok mall
    /\ TransitFitStep.transit_mask "even" epochs phase period duration
       = Ok meven
    /\ TransitFitStep.transit_mask "odd" epochs phase period duration = Ok modd
    /\ Spec.retained mall = Spec.retained meven ∪ Spec.retained modd.
Proof.
  intros Hlen.
  destruct (transit_mask_retained "all" epochs phase period duration)
    as (mall & Hall & _ & Ra); [by repeat constructor | exact Hlen |].
  destruct (transit_mask_retained "even" epochs phase period duration)
    as (meven & Heven & _ & Re); [by repeat constructor | exact Hlen |].
  destruct (transit_mask_retained "odd" epochs phase period duration)
    as (modd & Hodd & _ & Ro); [by repeat constructor | exact Hlen |].
  exists mall, meven, modd; repeat split; try assumption.
  apply set_eq; intros i; rewrite elem_of_union, Ra, Re, Ro; split.
  - intros (e & ph & He & Hph & _ & Hw).
    destruct (parity_even_or_odd e); [left | right]; eauto 10.
  - intros [(e & ph & He & Hph & _ & Hw) | (e & ph & He & Hph & _ & Hw)];
      exists e, ph; repeat split; try assumption; apply parity_ok_all.
Qed.

Lemma mask_all_is_union_witness :
  exists mall meven modd,
    TransitFitStep.transit_mask "all" [-3; -2; 4]%Z [1; 1; 1.5] 2 1 = Ok mall
    /\ TransitFitStep.transit_mask "even" [-3; -2; 4]%Z [1; 1; 1.5] 2 1
       = Ok meven
    /\ TransitFitStep.transit_mask "odd" [-3; -2; 4]%Z [1; 1; 1.5] 2 1
       = Ok modd
    /\ Spec.retained mall = Spec.retained meven ∪ Spec.retained modd.
Proof. apply (mask_all_is_union [-3; -2; 4]%Z [1; 1; 1.5] 2 1); reflexivity. Defined.

(** With a duration that is not positive no observation is retained, in
    any mode. *)
Theorem mask_empty_without_duration (mode : string) epochs phase
    (period duration : R) :
  mode ∈ ["all"; "even"; "odd"]%string ->
  length phase = length epochs ->
  duration <= 0 ->
  exists mask,
    TransitFitStep.transit_mask mode epochs phase period duration = Ok mask
    /\ Spec.retained mask = ∅.
Proof.
  intros Hmode Hlen Hd.
  destruct (transit_mask_retained mode epochs phase period duration Hmode Hlen)
    as (mask & Hmask & _ & Hret).
  exists mask; split; [exact Hmask|].
  apply set_eq; intros i; rewrite Hret; split; [|set_solver].
  intros (e & ph & _ & _ & _ & Hw).
  by apply in_window_nonpositive in Hw.
Qed.

Lemma mask_empty_without_duration_witness :
  exists mask,
    TransitFitStep.transit_mask "all" [0; 0]%Z [1; 1.5] 2 0 = Ok mask
    /\ Spec.retained mask = ∅.
Proof.
  apply (mask_empty_without_duration "all" [0; 0]%Z [1; 1.5] 2 0);
    [by repeat constructor | reflexivity | lra].
Defined.

(** X2: A longer duration retains at least the observations of a shorter one.
    *)
Theorem mask_grows_with_duration (mode : string) epochs phase
    (period d d' : R) :
  mode ∈ ["all"; "even"; "odd"]%string ->
  length phase = length epochs ->
  d <= d' ->
  exists mask mask',
    TransitFitStep.transit_mask mode epochs phase period d = Ok mask
    /\ TransitFitStep.transit_mask mode epochs phase period d' = Ok mask'
    /\ Spec.retained mask ⊆ Spec.retained mask'.
Proof.
  intros Hmode Hlen Hd.
  destruct (transit_mask_retained mode epochs phase period d Hmode Hlen)
    as (mask & Hmask & _ & Hret).
  destruct (transit_mask_retained mode epochs phase period d' Hmode Hlen)
    as (mask' & Hmask' & _ & Hret').
  exists mask, mask'; repeat split; try assumption.
  intros i; rewrite Hret, Hret'.
  intros (e & ph & He & Hph & Hp & Hw).
  exists e, ph; repeat split; try assumption.
  by eapply in_window_mono.
Qed.

Lemma mask_grows_with_duration_witness :
  exists mask mask',
    TransitFitStep.transit_mask "odd" [0; 1]%Z [1; 1.5] 2 0.1 = Ok mask
    /\ TransitFitStep.transit_mask "odd" [0; 1]%Z [1; 1.5] 2 1 = Ok mask'
    /\ Spec.retained mask ⊆ Spec.retained mask'.
Proof.
  apply (mask_grows_with_duration "odd" [0; 1]%Z [1; 1.5] 2 0.1 1);
    [by repeat constructor | reflexivity | lra].
Defined.

End MaskMore.

(** ** The outcomes of the fit step *)

Section CallOutcome.

Variable epoch : R -> R -> R -> Z.
Variable fit : list R -> list R -> R * R -> Posterior.

Lemma iand_length (mask rhs m : list bool) :
  iand mask rhs = Ok m -> length m = length mask.
Proof.
  unfold iand; case_decide as Hlen.
  - intros [= <-]; rewrite length_zip_with; lia.
  - destruct rhs as [|r [|]]; intros [= <-]. by rewrite length_fmap.
Qed.

Lemma transit_mask_length (mode : string) (epochs : list Z) (phase : list R)
    (period duration : R) (mask : list bool) :
  TransitFitStep.transit_mask mode epochs phase period duration = Ok mask ->
  length mask = length epochs.
Proof.
  unfold TransitFitStep.transit_mask; intros H.
  apply bind_Ok_inv in H as (m0 & Hm0 & Hand).
  apply iand_length in Hand; rewrite Hand.
  repeat case_decide; simplify_eq;
    by rewrite ?length_fmap; unfold ones_bool; rewrite ?length_replicate.
Qed.

Lemma elem_of_compress {A} (m : list bool) (a : list A) (x : A) :
  x ∈ compress m a <-> exists i, m !! i = Some true /\ a !! i = Some x.
Proof.
  revert a; induction m as [|b m IH]; intros [|y a]; cbn [compress].
  - rewrite elem_of_nil; split; [done | intros (i & Hi & _); done].
  - rewrite elem_of_nil; split; [done | intros (i & Hi & _); done].
  - rewrite elem_of_nil; split; [done | intros (i & _ & Hi); done].
  - destruct b.
    + rewrite elem_of_cons, IH; split.
      * intros [-> | (i & Hm & Ha)]; [by exists 0%nat | by exists (S i)].
      * intros ([|i] & Hm & Ha); simplify_eq/=; [by left | right; eauto].
    + rewrite IH; split.
      * intros (i & Hm & Ha); by exists (S i).
      * intros ([|i] & Hm & Ha); simplify_eq/=; eauto.
Qed.

Lemma for_epochs_length (ues epochs : list Z) (fobs fmod : list R) (err : R)
    (lnl : list R) :
  TransitFitStep.for_epochs ues epochs fobs fmod err = Ok lnl ->
  length lnl = length ues.
Proof.
  revert lnl; induction ues as [|e ues IH]; intros lnl; cbn.
  - by intros [= <-].
  - intros H.
    apply bind_Ok_inv in H as (d & _ & H).
    apply bind_Ok_inv in H as (ds & Hds & H).
    injection H as <-; cbn; f_equal; by apply IH.
Qed.

Lemma call_inversion (ts : TransitSearch) (mode : string) (r : Fit) :
  TransitFitStep.__call__ epoch fit ts mode = Ok r ->
  length (fit_mask r) = length (ts_time ts)
  /\ length (fit_time r) = size (Spec.retained (fit_mask r))
  /\ length (fit_fobs r) = length (fit_time r)
  /\ (1 <= length (fit_time r))%nat
  /\ length (fit_dll_values r) = length (fit_dll_epochs r)
  /\ StronglySorted Z.lt (fit_dll_epochs r)
  /\ (forall e, e ∈ fit_dll_epochs r <->
        exists i t, i ∈ Spec.retained (fit_mask r)
          /\ ts_time ts !! i = Some t
          /\ e = epoch t (ts_zero_epoch ts) (ts_period ts))
  /\ (is_Some (fit_delta_bic r) <-> mode = "all"%string).
Proof.
  unfold TransitFitStep.__call__; intros H.
  apply bind_Ok_inv in H as (mask & Hmask & H).
  apply bind_Ok_inv in H as (epochs' & He & H).
  apply bind_Ok_inv in H as (time & Ht & H).
  apply bind_Ok_inv in H as (fobs & Hf & H).
  apply bind_Ok_inv in H as (tmin & Hmin & H).
  apply bind_Ok_inv in H as ([ues lnl] & Hdll & H).
  injection H as <-; cbn [fit_mask fit_time fit_fobs fit_dll_epochs
                           fit_dll_values fit_delta_bic].
  apply transit_mask_length in Hmask; rewrite length_fmap in Hmask.
  apply getmask_Ok in He as [_ ->].
  apply getmask_Ok in Ht as [Hlt ->].
  apply getmask_Ok in Hf as [Hlf ->].
  unfold TransitFitStep.per_orbit_dll in Hdll.
  apply bind_Ok_inv in Hdll as (lnl' & Hfor & Hdll).
  injection Hdll as <- <-.
  split; [exact Hmask|].
  split; [by apply length_compress_retained|].
  split; [by apply length_compress|].
  split.
  { destruct (compress mask (ts_time ts)); [discriminate Hmin | cbn; lia]. }
  split; [by eapply for_epochs_length|].
  split; [apply unique_sorted|].
  split.
  - intros e; rewrite elem_of_unique, elem_of_compress; split.
    + intros (i & Hi & Hei).
      rewrite list_lookup_fmap in Hei.
      destruct (ts_time ts !! i) as [t|] eqn:Hti; [|discriminate Hei].
      injection Hei as <-.
      exists i, t; split; [by apply elem_of_retained | done].
    + intros (i & t & Hi & Hti & ->).
      exists i; split; [by apply elem_of_retained|].
      by rewrite list_lookup_fmap, Hti.
  - unfold TransitFitStep.score; case_decide as Hm; split; done.
Qed.

End CallOutcome.


Section CallTaxonomy.

Variable epoch : R -> R -> R -> Z.
Variable fit : list R -> list R -> R * R -> Posterior.

Hypothesis fit_shape :
  forall time fobs prior,
    length fobs = length time ->
    length (post_fmod (fit time fobs prior)) = length time.

(** The outcomes of the fit path on data with one phase per time. *)
Lemma call_outcome_fit_path (ts : TransitSearch) (mode : string) :
  length (ts_phase ts) = length (ts_time ts) ->
  let passes := fun (i : nat) =>
    exists t ph, ts_time ts !! i = Some t /\ ts_phase ts !! i = Some ph
      /\ Spec.parity_ok mode (epoch t (ts_zero_epoch ts) (ts_period ts))
      /\ Spec.in_window ph (ts_period ts) (ts_duration ts) in
  match TransitFitStep.__call__ epoch fit ts mode with
  | Ok r =>
      mode ∈ ["all"; "even"; "odd"]%string
      /\ length (ts_flux ts) = length (ts_time ts)
      /\ exists i, passes i
  | Raise e =>
      (e = NotImplementedError /\ mode ∉ ["all"; "even"; "odd"]%string)
      \/ (e = IndexError /\ mode ∈ ["all"; "even"; "odd"]%string
          /\ length (ts_flux ts) <> length (ts_time ts))
      \/ (e = ValueError /\ mode ∈ ["all"; "even"; "odd"]%string
          /\ length (ts_flux ts) = length (ts_time ts)
          /\ forall i, ~ passes i)
  end.
Proof.
  intros Hph passes.
  destruct (decide (mode ∈ ["all"; "even"; "odd"]%string)) as [Hmode | Hmode].
  2:{ unfold TransitFitStep.__call__.
      rewrite transit_mask_other by exact Hmode. cbn. by left. }
  destruct (transit_mask_retained mode
              ((fun t => epoch t (ts_zero_epoch ts) (ts_period ts)) <$> ts_time ts)
              (ts_phase ts) (ts_period ts) (ts_duration ts) Hmode)
    as (mask & Hmask & Hlm & Hret); [by rewrite length_fmap|].
  rewrite length_fmap in Hlm.
  assert (Hpass : forall i, i ∈ Spec.retained mask <-> passes i).
  { intros i; rewrite Hret; unfold passes; split.
    - intros (e & ph & He & Hp & Hpar & Hw).
      rewrite list_lookup_fmap in He.
      destruct (ts_time ts !! i) as [t|]; [|discriminate He].
      injection He as <-. by exists t, ph.
    - intros (t & ph & Ht & Hp & Hpar & Hw).
      exists (epoch t (ts_zero_epoch ts) (ts_period ts)), ph.
      by rewrite list_lookup_fmap, Ht. }
  destruct (decide (length (ts_flux ts) = length (ts_time ts))) as [Hfl | Hfl].
  2:{ unfold TransitFitStep.__call__.
      rewrite Hmask; cbn [mbind result_bind].
      rewrite (getmask_same_length mask (_ <$> ts_time ts))
        by (rewrite length_fmap; congruence).
      cbn [mbind result_bind].
      rewrite (getmask_same_length mask (ts_time ts)) by congruence.
      cbn [mbind result_bind]. unfold getmask at 1.
      rewrite decide_False by congruence. cbn. right; left; done. }
  destruct (compress mask (ts_time ts)) as [|t0 time'] eqn:Htime.
  - rewrite (call_empty_selection epoch fit ts mode mask Hmask Hlm Hfl Htime).
    right; right; repeat split; try done.
    intros i Hi; apply Hpass in Hi.
    pose proof (length_compress_retained mask (ts_time ts) Hlm) as Hsz.
    rewrite Htime in Hsz; cbn in Hsz.
    symmetry in Hsz; apply size_empty_iff in Hsz.
    apply Hsz in Hi. by apply elem_of_empty in Hi.
  - pose proof (call_eval epoch fit fit_shape ts mode mask Hmask Hlm Hfl) as Hc.
    cbv zeta in Hc; rewrite Hc by (rewrite Htime; done).
    repeat split; try done.
    pose proof (length_compress_retained mask (ts_time ts) Hlm) as Hsz.
    rewrite Htime in Hsz; cbn in Hsz.
    destruct (set_choose_L (Spec.retained mask)) as [i Hi].
    { intros Hempty; rewrite Hempty, size_empty in Hsz; lia. }
    exists i; by apply Hpass.
Qed.

End CallTaxonomy.


(** ** Further properties of the per-orbit table *)

Section TableMore.

Implicit Types (epochs ues : list Z) (fobs fmod o m ds : list R) (err : R).

Lemma restrict_cons {A} (e y : Z) epochs (x : A) (xs : list A) :
  Spec.restrict e (y :: epochs) (x :: xs)
  = if decide (y = e) then x :: Spec.restrict e epochs xs
    else Spec.restrict e epochs xs.
Proof.
  unfold Spec.restrict, Spec.at_epochs; cbn [zip zip_with].
  rewrite filter_cons; cbn [fst]. by destruct (decide (y = e)).
Qed.

Lemma restrict_zip_with (f : R -> R -> R) (e : Z) epochs (xs ys : list R) :
  length xs = length epochs -> length ys = length epochs ->
  Spec.restrict e epochs (zip_with f xs ys)
  = zip_with f (Spec.restrict e epochs xs) (Spec.restrict e epochs ys).
Proof.
  revert xs ys; induction epochs as [|y epochs IH];
    intros [|x xs] [|z ys] Hx Hy; try discriminate; [reflexivity|].
  injection Hx as Hx; injection Hy as Hy.
  cbn [zip_with]; rewrite !restrict_cons.
  destruct (decide (y = e)); cbn [zip_with]; by rewrite IH.
Qed.

(** The difference of the two likelihoods, point by point: the terms in
    [log e] and [log 2 pi] cancel. *)
Lemma LL_diff_pointwise o m err :
  length m = length o ->
  Spec.LL o m err - Spec.LL o (Spec.flat (length o)) err
  = Spec.total
      (zip_with (fun x y => 0.5 * ((x - 1)² / err² - (x - y)² / err²)) o m).
Proof.
  intros Hlen; unfold Spec.LL, Spec.flat.
  enough (Spec.total (zip_with (fun oi mi => (oi - mi)² / err²) o
                               (replicate (length o) 1))
          - Spec.total (zip_with (fun oi mi => (oi - mi)² / err²) o m)
          = 2 * Spec.total
                  (zip_with (fun x y => 0.5 * ((x - 1)² / err² - (x - y)² / err²))
                            o m)) by lra.
  unfold Spec.total.
  revert m Hlen; induction o as [|x o IH]; intros [|y m] Hlen;
    try discriminate Hlen; cbn [length replicate zip_with foldr]; [lra|].
  injection Hlen as Hlen. specialize (IH m Hlen). lra.
Qed.

Lemma total_indicator (l : list Z) (y : Z) (d : R) (g : Z -> R) :
  NoDup l -> y ∈ l ->
  Spec.total ((fun e => if decide (y = e) then d + g e else g e) <$> l)
  = d + Spec.total (g <$> l).
Proof.
  unfold Spec.total.
  induction 1 as [|e l Hnin Hnd IH]; intros Hy; [by apply elem_of_nil in Hy|].
  cbn [fmap list_fmap foldr].
  change (list_fmap Z R ?f l) with (f <$> l).
  apply elem_of_cons in Hy as [-> | Hy].
  - rewrite decide_True by done.
    rewrite (list_fmap_ext _ g l); [lra|].
    intros i z Hz; rewrite decide_False; [done|].
    intros ->; apply Hnin. by eapply list_elem_of_lookup_2.
  - rewrite (IH Hy).
    destruct (decide (y = e)) as [-> | _]; [done | lra].
Qed.

(** Summing over the epochs the sums over their points gives the sum over
    all points. *)
Lemma total_partition (l : list Z) epochs ds :
  NoDup l -> (forall e, e ∈ epochs -> e ∈ l) ->
  length ds = length epochs ->
  Spec.total ((fun e => Spec.total (Spec.restrict e epochs ds)) <$> l)
  = Spec.total ds.
Proof.
  intros Hnd; revert ds; induction epochs as [|y epochs IH];
    intros [|d ds] Hin Hlen; try discriminate Hlen.
  - clear; unfold Spec.total; induction l as [|e l IH]; [reflexivity|].
    cbn [fmap list_fmap foldr] in *.
    change (list_fmap Z R ?f l) with (f <$> l). rewrite IH.
    unfold Spec.restrict, Spec.at_epochs; cbn. lra.
  - injection Hlen as Hlen.
    rewrite (list_fmap_ext _
               (fun e => if decide (y = e)
                         then d + Spec.total (Spec.restrict e epochs ds)
                         else Spec.total (Spec.restrict e epochs ds)) l).
    2:{ intros i e _; rewrite restrict_cons. by destruct (decide (y = e)). }
    rewrite total_indicator by (try done; apply Hin; by left).
    rewrite IH; [reflexivity | | exact Hlen].
    intros e He; apply Hin; by right.
Qed.

(** X5: The entries of the table add up to the delta log-likelihood of all
    selected points taken together: the epochs partition the selection. *)
Theorem table_sums_to_global_dll epochs fobs fmod err :
  length fobs = length epochs -> length fmod = length epochs ->
  exists ues lnl,
    TransitFitStep.per_orbit_dll epochs fobs fmod err = Ok (ues, lnl)
    /\ Np.sum lnl
       = Spec.LL fobs fmod err - Spec.LL fobs (Spec.flat (length fobs)) err.
Proof.
  intros Ho Hm.
  eexists _, _; split; [by apply per_orbit_dll_ok|].
  rewrite sum_total, (LL_diff_pointwise fobs fmod) by congruence.
  rewrite <- (total_partition (unique epochs) epochs
                (zip_with (fun x y => 0.5 * ((x - 1)² / err² - (x - y)² / err²))
                          fobs fmod) (unique_NoDup epochs)).
  2:{ intros e; by rewrite elem_of_unique. }
  2:{ rewrite length_zip_with; lia. }
  f_equal; apply list_fmap_ext; intros i e _.
  rewrite LL_diff_pointwise by (by apply length_restrict).
  by rewrite restrict_zip_with.
Qed.

Lemma table_sums_to_global_dll_witness :
  exists ues lnl,
    TransitFitStep.per_orbit_dll [0; 1; 0]%Z [0.99; 1; 0.98] [0.99; 1; 1] 0.01
    = Ok (ues, lnl)
    /\ Np.sum lnl
       = Spec.LL [0.99; 1; 0.98] [0.99; 1; 1] 0.01
         - Spec.LL [0.99; 1; 0.98] (Spec.flat 3) 0.01.
Proof.
  apply (table_sums_to_global_dll [0; 1; 0]%Z [0.99; 1; 0.98] [0.99; 1; 1] 0.01);
    reflexivity.
Defined.

End TableMore.

Section TableSigns.

Implicit Types (epochs ues : list Z) (fobs fmod o m : list R) (err : R).

Lemma pointwise_gain_total o m err :
  0 < err -> length m = length o ->
  Spec.total
    (zip_with (fun x y => 0.5 * ((x - 1)² / err² - (x - y)² / err²)) o m)
  = (Spec.total ((fun x => (x - 1)²) <$> o)
     - Spec.total (zip_with (fun x y => (x - y)²) o m)) / (2 * err²).
Proof.
  intros He Hlen.
  assert (He2 : err² <> 0) by (apply Rgt_not_eq, Rsqr_pos_lt; lra).
  unfold Rdiv; rewrite Rinv_mult.
  generalize (/ err²) as k; intros k.
  unfold Spec.total.
  revert m Hlen; induction o as [|x o IH]; intros [|y m] Hlen;
    try discriminate Hlen; cbn [zip_with fmap list_fmap foldr]; [lra|].
  injection Hlen as Hlen.
  change (list_fmap R R ?f o) with (f <$> o).
  rewrite (IH m Hlen). lra.
Qed.

Lemma restrict_replicate (e : Z) epochs (xs : list R) (c : R) :
  length xs = length epochs ->
  Spec.restrict e epochs (replicate (length xs) c)
  = replicate (length (Spec.restrict e epochs xs)) c.
Proof.
  revert xs; induction epochs as [|y epochs IH]; intros [|x xs] Hlen;
    try discriminate Hlen; [reflexivity|].
  injection Hlen as Hlen; cbn [length replicate].
  rewrite !restrict_cons.
  destruct (decide (y = e)); cbn [length replicate]; by rewrite IH.
Qed.

(** X6: With a positive noise every entry of the table is the gain in the
    residual sum of squares of the model over the flat line, divided by [2
    err²]; it is positive exactly when the model fits the epoch better than
    the flat line and zero exactly when both fit equally. *)
Theorem dll_is_residual_gain epochs fobs fmod err :
  length fobs = length epochs -> length fmod = length epochs -> 0 < err ->
  exists ues lnl,
    TransitFitStep.per_orbit_dll epochs fobs fmod err = Ok (ues, lnl)
    /\ forall i e d, ues !! i = Some e -> lnl !! i = Some d ->
         let o := Spec.restrict e epochs fobs in
         let m := Spec.restrict e epochs fmod in
         let ss_flat := Spec.total ((fun x => (x - 1)²) <$> o) in
         let ss_model := Spec.total (zip_with (fun x y => (x - y)²) o m) in
         d = (ss_flat - ss_model) / (2 * err²)
         /\ (0 < d <-> ss_model < ss_flat)
         /\ (d = 0 <-> ss_model = ss_flat).
Proof.
  intros Ho Hm He.
  eexists _, _; split; [by apply per_orbit_dll_ok|].
  intros i e d Hi Hd o m ss_flat ss_model.
  rewrite list_lookup_fmap, Hi in Hd; injection Hd as <-.
  fold o m.
  assert (Hlen : length m = length o) by (by apply length_restrict).
  rewrite LL_diff_pointwise, pointwise_gain_total by done.
  fold ss_flat ss_model.
  assert (He2 : 0 < 2 * err²) by (pose proof (Rsqr_pos_lt err); lra).
  split; [reflexivity|].
  unfold Rdiv; pose proof (Rinv_0_lt_compat _ He2) as Hinv.
  split; split; intros H; try nra.
Qed.

Lemma dll_is_residual_gain_witness :
  exists ues lnl,
    TransitFitStep.per_orbit_dll [0; 1; 0]%Z [0.99; 1; 0.98] [0.99; 1; 1] 0.01
    = Ok (ues, lnl)
    /\ length ues = 2%nat.
Proof.
  destruct (dll_is_residual_gain [0; 1; 0]%Z [0.99; 1; 0.98] [0.99; 1; 1] 0.01)
    as (ues & lnl & Hrun & _); [reflexivity | reflexivity | lra |].
  exists ues, lnl; split; [exact Hrun|].
  rewrite per_orbit_dll_ok in Hrun by reflexivity.
  by injection Hrun as <- _.
Defined.

(** X7: A model flux of [1.0] at every point gives every epoch the entry [0],
    and the fit of all transits the score [- 4.5 log N]. *)
Theorem flat_model_scores_penalty_only epochs fobs err :
  length fobs = length epochs ->
  exists ues lnl,
    TransitFitStep.per_orbit_dll epochs fobs (replicate (length fobs) 1) err
    = Ok (ues, lnl)
    /\ (forall d, d ∈ lnl -> d = 0)
    /\ TransitFitStep.score "all" lnl (length fobs)
       = Some (- 4.5 * ln (INR (length fobs))).
Proof.
  intros Ho.
  assert (Hm : length (replicate (length fobs) 1) = length epochs)
    by (by rewrite length_replicate).
  eexists _, _; split; [by apply per_orbit_dll_ok|].
  assert (Hz : forall d,
    d ∈ (fun e =>
           Spec.LL (Spec.restrict e epochs fobs)
             (Spec.restrict e epochs (replicate (length fobs) 1)) err
           - Spec.LL (Spec.restrict e epochs fobs)
               (Spec.flat (length (Spec.restrict e epochs fobs))) err)
          <$> unique epochs -> d = 0).
  { intros d Hd; apply list_elem_of_fmap in Hd as (e & -> & _).
    rewrite restrict_replicate by done. unfold Spec.flat; lra. }
  split; [exact Hz|].
  unfold TransitFitStep.score; rewrite decide_True by reflexivity.
  rewrite delta_bic_call_site, sum_total; f_equal.
  enough (forall l : list R, (forall d, d ∈ l -> d = 0) -> Spec.total l = 0)
    as Hall by (rewrite (Hall _ Hz); lra).
  clear; unfold Spec.total; induction l as [|x l IH]; intros Hl; [reflexivity|].
  cbn [foldr].
  rewrite IH by (intros d Hd; apply Hl; by right).
  rewrite (Hl x) by (by left). lra.
Qed.

Lemma flat_model_scores_penalty_only_witness :
  exists ues lnl,
    TransitFitStep.per_orbit_dll [0; 1; 0]%Z [0.99; 1; 0.98] (replicate 3 1) 0.01
    = Ok (ues, lnl)
    /\ TransitFitStep.score "all" lnl 3 = Some (- 4.5 * ln (INR 3)).
Proof.
  destruct (flat_model_scores_penalty_only [0; 1; 0]%Z [0.99; 1; 0.98] 0.01)
    as (ues & lnl & Hrun & _ & Hscore); [reflexivity|].
  by exists ues, lnl.
Defined.

End TableSigns.

(** ** Bounds on the mean delta log likelihood *)

Section MeanBounds.

Lemma ln_le_mono (x y : R) : 0 < x -> x <= y -> ln x <= ln y.
Proof.
  intros Hx [Hlt | ->]; [left; by apply ln_increasing | right; reflexivity].
Qed.

Lemma exp_le_mono (x y : R) : x <= y -> exp x <= exp y.
Proof.
  intros [Hlt | ->]; [left; by apply exp_increasing | right; reflexivity].
Qed.

Lemma fold_left_Rmax_spec (t : list R) (x : R) :
  (fold_left Rmax t x = x \/ fold_left Rmax t x ∈ t)
  /\ x <= fold_left Rmax t x
  /\ forall y, y ∈ t -> y <= fold_left Rmax t x.
Proof.
  revert x; induction t as [|z t IH]; intros x; cbn [fold_left].
  - split; [by left|]; split; [lra|]. intros y Hy; by apply elem_of_nil in Hy.
  - destruct (IH (Rmax x z)) as (Hin & Hle & Hall).
    pose proof (Rmax_l x z). pose proof (Rmax_r x z).
    split; [|split].
    + destruct Hin as [Heq | Hin]; [|right; by right].
      rewrite Heq; unfold Rmax; destruct (Rle_dec x z); [right; by left | by left].
    + lra.
    + intros y Hy; apply elem_of_cons in Hy as [-> | Hy]; [lra | by apply Hall].
Qed.

(** [a.max()] returns an element that bounds all the others. *)
Lemma amax_spec (a : list R) (lm : R) :
  amax a = Ok lm -> lm ∈ a /\ forall x, x ∈ a -> x <= lm.
Proof.
  destruct a as [|x t]; [discriminate|]; cbn [amax]; intros [= <-].
  destruct (fold_left_Rmax_spec t x) as (Hin & Hle & Hall); split.
  - destruct Hin as [-> | Hin]; [by left | by right].
  - intros y Hy; apply elem_of_cons in Hy as [-> | Hy]; [exact Hle | by apply Hall].
Qed.

Lemma total_le_length (l : list R) :
  (forall x, x ∈ l -> x <= 1) -> Spec.total l <= INR (length l).
Proof.
  unfold Spec.total; induction l as [|x l IH]; intros Hl.
  - cbn; lra.
  - cbn [foldr length]; rewrite S_INR.
    pose proof (Hl x ltac:(by left)).
    pose proof (IH ltac:(intros y Hy; apply Hl; by right)). lra.
Qed.

Lemma total_ge_member (l : list R) (x : R) :
  (forall y, y ∈ l -> 0 <= y) -> x ∈ l -> x <= Spec.total l.
Proof.
  unfold Spec.total; induction l as [|z l IH]; intros Hl Hx;
    [by apply elem_of_nil in Hx|].
  cbn [foldr].
  assert (Hrest : 0 <= foldr Rplus 0 l).
  { clear -Hl; induction l as [|y l IH]; cbn [foldr]; [lra|].
    pose proof (Hl y ltac:(right; by left)).
    pose proof (IH ltac:(intros w Hw; apply elem_of_cons in Hw as [-> | Hw];
                         apply Hl; [by left | right; by right])). lra. }
  pose proof (Hl z ltac:(by left)).
  apply elem_of_cons in Hx as [-> | Hx]; [lra|].
  pose proof (IH ltac:(intros y Hy; apply Hl; by right) Hx). lra.
Qed.

(** X8: The summary of a non-empty list lies between its maximum minus the
    logarithm of its length and its maximum. *)
Theorem mean_dll_bounds (ll : list R) :
  ll <> [] ->
  exists lm v,
    amax ll = Ok lm
    /\ TransitFitStep.mean_dll ll = Ok v
    /\ lm - ln (INR (length ll)) <= v <= lm.
Proof.
  intros Hne.
  destruct (amax_nonempty ll Hne) as [lm Hlm].
  exists lm; eexists; split; [exact Hlm|].
  unfold TransitFitStep.mean_dll; rewrite Hlm; cbn [mbind result_bind].
  split; [reflexivity|].
  destruct (amax_spec ll lm Hlm) as [Hin Hmax].
  assert (Hn : 0 < INR (length ll)).
  { apply lt_0_INR. destruct ll; [done | cbn [length]; lia]. }
  unfold Np.mean; rewrite sum_total, length_fmap.
  set (T := Spec.total ((fun x => exp (x - lm)) <$> ll)).
  assert (Hup : T <= INR (length ll)).
  { subst T.
    rewrite <- (length_fmap (fun x => exp (x - lm)) ll).
    apply total_le_length; intros y Hy.
    apply list_elem_of_fmap in Hy as (x & -> & Hx).
    rewrite <- exp_0; apply exp_le_mono.
    pose proof (Hmax x Hx); lra. }
  assert (Hlow : 1 <= T).
  { subst T. rewrite <- exp_0.
    apply total_ge_member.
    - intros y Hy; apply list_elem_of_fmap in Hy as (x & -> & _).
      left; apply exp_pos.
    - apply list_elem_of_fmap; exists lm; split; [f_equal; lra | exact Hin]. }
  assert (Hq1 : / INR (length ll) <= T / INR (length ll)).
  { unfold Rdiv; pose proof (Rinv_0_lt_compat _ Hn); nra. }
  assert (Hq2 : T / INR (length ll) <= 1).
  { apply (Rmult_le_reg_r (INR (length ll))); [exact Hn|].
    unfold Rdiv; rewrite Rmult_assoc, Rinv_l by lra. lra. }
  pose proof (ln_le_mono _ _ (Rinv_0_lt_compat _ Hn) Hq1) as H1.
  rewrite ln_Rinv in H1 by exact Hn.
  assert (Hpos : 0 < T / INR (length ll))
    by (pose proof (Rinv_0_lt_compat _ Hn); lra).
  pose proof (ln_le_mono _ _ Hpos Hq2) as H2.
  rewrite ln_1 in H2. lra.
Qed.

Lemma mean_dll_bounds_witness :
  exists lm v,
    amax [-500; 0; 500] = Ok lm
    /\ TransitFitStep.mean_dll [-500; 0; 500] = Ok v
    /\ lm - ln (INR 3) <= v <= lm.
Proof. by apply (mean_dll_bounds [-500; 0; 500]). Defined.

End MeanBounds.

(** ** Further properties of the header cards *)

Section HeaderMore.

Implicit Types (ep : list Z) (ll : list R) (h : list Card).

Lemma at_epochs_nil_iff {A} (P : Z -> Prop) `{!forall e, Decision (P e)}
    ep (xs : list A) :
  length xs = length ep ->
  Spec.at_epochs P ep xs = [] <-> forall e, e ∈ ep -> ~ P e.
Proof.
  unfold Spec.at_epochs.
  revert xs; induction ep as [|y ep IH]; intros [|x xs] Hlen;
    try discriminate Hlen.
  - split; [intros _ e He; by apply elem_of_nil in He | done].
  - injection Hlen as Hlen. cbn [zip zip_with].
    rewrite filter_cons; cbn [fst].
    destruct (decide (P y)) as [Hy | Hy].
    + split; [discriminate|]. intros Hall; exfalso.
      apply (Hall y); [by left | exact Hy].
    + rewrite (IH xs Hlen); split.
      * intros Hall e He; apply elem_of_cons in He as [-> | He];
          [exact Hy | by apply Hall].
      * intros Hall e He; apply Hall; by right.
Qed.

(** Without an epoch of odd index the step raises after the second card. *)
Lemma add_to_fits_no_odd ep ll h :
  length ep = length ll ->
  Spec.at_epochs (fun e => e `mod` 2 = 0)%Z ep ll <> [] ->
  Spec.at_epochs (fun e => e `mod` 2 ≠ 0)%Z ep ll = [] ->
  (TransitFitStep.add_to_fits true "all" ep ll h).2 = Raise ValueError.
Proof.
  intros Hlen He Ho.
  pose proof (at_epochs_nonempty _ ep ll He) as Hne.
  unfold TransitFitStep.add_to_fits, TransitFitStep.append_card,
    se_bind, se_lift, se_modify.
  cbn [TransitFitStep.mode_tag].
  rewrite decide_True by reflexivity.
  rewrite (mean_dll_closed_form ll Hne).
  rewrite !getmask_same_length by (by rewrite length_fmap).
  rewrite (compress_at_epochs (fun e => e `mod` 2 = 0)%Z) by done.
  rewrite (compress_at_epochs (fun e => e `mod` 2 ≠ 0)%Z) by done.
  rewrite (mean_dll_closed_form _ He), Ho; reflexivity.
Qed.

(** X10: The fitted step writes its cards without raising exactly when the
    mode is not the empty string, there is at least one value, and, in the
    mode all, the epochs and the values have one length and both an epoch of
    even and an epoch of odd index are present. *)
Theorem add_to_fits_succeeds_iff (mode : string) ep ll h :
  (TransitFitStep.add_to_fits true mode ep ll h).2 = Ok tt
  <-> mode <> ""%string
      /\ ll <> []
      /\ (mode = "all"%string ->
          length ep = length ll
          /\ (exists e, e ∈ ep /\ (e `mod` 2 = 0)%Z)
          /\ (exists e, e ∈ ep /\ (e `mod` 2 ≠ 0)%Z)).
Proof.
  unfold TransitFitStep.add_to_fits, TransitFitStep.append_card,
    se_bind, se_lift, se_modify, se_ret.
  destruct mode as [|c mode']; cbn [TransitFitStep.mode_tag].
  { cbn; split; [discriminate | intros [? _]; done]. }
  destruct ll as [|x ll'].
  { cbn; split; [discriminate | intros (_ & ? & _); done]. }
  rewrite (mean_dll_closed_form (x :: ll')) by done.
  case_decide as Hmode; [|cbn; split; [by intros _ | done]].
  unfold getmask; rewrite !length_fmap.
  destruct (decide (length ep = length (x :: ll'))) as [Hlen | Hlen].
  2:{ cbn; split; [discriminate|]. intros (_ & _ & H).
      destruct (H Hmode) as [? _]; done. }
  rewrite (compress_at_epochs (fun e => e `mod` 2 = 0)%Z) by done.
  rewrite (compress_at_epochs (fun e => e `mod` 2 ≠ 0)%Z) by done.
  pose proof (at_epochs_nil_iff (fun e => e `mod` 2 = 0)%Z ep (x :: ll')
                ltac:(done)) as Hev.
  pose proof (at_epochs_nil_iff (fun e => e `mod` 2 ≠ 0)%Z ep (x :: ll')
                ltac:(done)) as Hod.
  destruct (Spec.at_epochs (fun e => e `mod` 2 = 0)%Z ep (x :: ll'))
    as [|v0 evens] eqn:Hevens.
  { cbn; split; [discriminate|]. intros (_ & _ & H).
    destruct (H Hmode) as (_ & (e & He & Hpar) & _).
    exfalso; eapply (proj1 Hev); eauto. }
  rewrite (mean_dll_closed_form (v0 :: evens)) by done.
  destruct (Spec.at_epochs (fun e => e `mod` 2 ≠ 0)%Z ep (x :: ll'))
    as [|v1 odds] eqn:Hodds.
  { cbn; split; [discriminate|]. intros (_ & _ & H).
    destruct (H Hmode) as (_ & _ & (e & He & Hpar)).
    exfalso; eapply (proj1 Hod); eauto. }
  rewrite (mean_dll_closed_form (v1 :: odds)) by done.
  cbn; split; [intros _ | done].
  split; [done|]; split; [done|]; intros _; split; [exact Hlen|].
  split.
  - apply Exists_exists.
    destruct (decide (Exists (fun e => e `mod` 2 = 0)%Z ep)) as [|Hno];
      [done|].
    exfalso. assert (v0 :: evens = []); [|done].
    apply Hev; intros e He Hpar; apply Hno, Exists_exists; eauto.
  - apply Exists_exists.
    destruct (decide (Exists (fun e => e `mod` 2 ≠ 0)%Z ep)) as [|Hno];
      [done|].
    exfalso. assert (v1 :: odds = []); [|done].
    apply Hod; intros e He Hpar; apply Hno, Exists_exists; eauto.
Qed.

End HeaderMore.

(** ** Writing the cards of a fit *)

Section FitThenWrite.

Variable epoch : R -> R -> R -> Z.
Variable fit : list R -> list R -> R * R -> Posterior.

(** X11: After a fit of all transits whose epochs all have one parity, a
    single transit for instance, the step cannot write its cards: the split
    into even and odd epochs takes the maximum of an empty array and raises
    [ValueError]. *)
Theorem single_parity_fit_raises (ts : TransitSearch) (r : Fit)
    (h : list Card) :
  TransitFitStep.__call__ epoch fit ts "all" = Ok r ->
  (forall e e', e ∈ fit_dll_epochs r -> e' ∈ fit_dll_epochs r ->
     (e `mod` 2 = e' `mod` 2)%Z) ->
  (TransitFitStep.add_to_fits true "all" (fit_dll_epochs r)
     (fit_dll_values r) h).2
  = Raise ValueError.
Proof.
  intros Hcall Hpar.
  destruct (call_inversion epoch fit ts "all" r Hcall)
    as (Hlm & Hsz & _ & Hone & Hlen & _ & Hep & _).
  assert (Hex : exists e0, e0 ∈ fit_dll_epochs r).
  { destruct (set_choose_L (Spec.retained (fit_mask r))) as [i Hi].
    { intros Hempty; rewrite Hempty, size_empty in Hsz; lia. }
    pose proof Hi as Hi'; apply elem_of_retained, lookup_lt_Some in Hi'.
    destruct (lookup_lt_is_Some_2 (ts_time ts) i ltac:(lia)) as [t Ht].
    exists (epoch t (ts_zero_epoch ts) (ts_period ts)).
    apply Hep; by exists i, t. }
  destruct Hex as [e0 He0].
  assert (Hne : fit_dll_values r <> []).
  { intros Hnil; rewrite Hnil in Hlen; cbn in Hlen.
    destruct (fit_dll_epochs r); [by apply elem_of_nil in He0 | done]. }
  pose proof (at_epochs_nil_iff (fun e => e `mod` 2 = 0)%Z (fit_dll_epochs r)
                (fit_dll_values r) Hlen) as Hev.
  pose proof (at_epochs_nil_iff (fun e => e `mod` 2 ≠ 0)%Z (fit_dll_epochs r)
                (fit_dll_values r) Hlen) as Hod.
  destruct (decide (e0 `mod` 2 = 0)%Z) as [Heven | Hodd].
  - apply add_to_fits_no_odd; [done | |].
    + intros Hnil. by apply (proj1 Hev Hnil e0).
    + apply Hod. intros e He Hne'; apply Hne'. by rewrite (Hpar e e0).
  - rewrite add_to_fits_no_even; [reflexivity | done | done |].
    apply Hev. intros e He Heven; apply Hodd. by rewrite (Hpar e0 e).
Qed.

End FitThenWrite.

Lemma sample_call_epochs :
  exists r,
    TransitFitStep.__call__ Sample.epoch Sample.fit Sample.ts "all" = Ok r
    /\ fit_dll_epochs r = [0%Z].
Proof.
  eexists; split.
  - apply (call_eval Sample.epoch Sample.fit sample_fit_shape Sample.ts "all"
             [true; true] sample_mask_all); [reflexivity | reflexivity | done].
  - reflexivity.
Qed.

Lemma single_parity_fit_raises_witness :
  exists r,
    TransitFitStep.__call__ Sample.epoch Sample.fit Sample.ts "all" = Ok r
    /\ (TransitFitStep.add_to_fits true "all" (fit_dll_epochs r)
          (fit_dll_values r) []).2
       = Raise ValueError.
Proof.
  destruct sample_call_epochs as (r & Hcall & Hep).
  exists r; split; [exact Hcall|].
  apply (single_parity_fit_raises Sample.epoch Sample.fit Sample.ts r []
           Hcall).
  rewrite Hep; intros e e' He He'.
  apply list_elem_of_singleton in He, He'; by subst.
Defined.

(** ** The penalty of [delta_bic] *)

Section Penalty.

(** X12: With one observation the score is the delta log-likelihood itself;
    for more observations the direction in which the score moves with their
    number is decided by the order of the two parameter counts. *)
Theorem delta_bic_direction (dll : R) (d1 d2 : Z) (n n' : nat) :
  (1 <= n)%nat -> (n < n')%nat ->
  delta_bic dll d1 d2 1 = dll
  /\ ((d2 < d1)%Z -> delta_bic dll d1 d2 n < delta_bic dll d1 d2 n')
  /\ (d1 = d2 -> delta_bic dll d1 d2 n = delta_bic dll d1 d2 n')
  /\ ((d1 < d2)%Z -> delta_bic dll d1 d2 n' < delta_bic dll d1 d2 n).
Proof.
  intros Hn Hlt; unfold delta_bic.
  pose proof (ln_INR_lt n n' Hn Hlt) as Hln.
  split; [|split; [|split]].
  - cbn [INR]; rewrite ln_1; lra.
  - intros Hd. assert (0 < IZR (d1 - d2)) by (apply IZR_lt; lia). nra.
  - intros ->. replace (d2 - d2)%Z with 0%Z by lia. lra.
  - intros Hd. assert (IZR (d1 - d2) < 0) by (apply IZR_lt; lia). nra.
Qed.

Lemma delta_bic_direction_witness :
  delta_bic 3 9 0 1 = 3
  /\ ((0 < 9)%Z -> delta_bic 3 9 0 1 < delta_bic 3 9 0 2).
Proof.
  destruct (delta_bic_direction 3 9 0 1 2) as (H1 & H2 & _); [lia | lia |].
  by split.
Defined.

End Penalty.

(** ** Further properties of the priors *)

Section PriorMore.

(** X13: In the modes even and odd the lower bound is below the upper bound
    exactly when the reference median is below [0.72], and the reference
    median lies inside the interval exactly when it lies between [0.01²] and
    [0.6²]. *)
Theorem k2_prior_parity_interval (mode : string) (ts : TransitSearch) :
  mode ∈ ["even"; "odd"]%string ->
  let k2 := ts_tf_all_k2_med ts in
  let lo := (TransitFitStep.k2_prior mode ts).1 in
  let hi := (TransitFitStep.k2_prior mode ts).2 in
  (lo < hi <-> k2 < 0.72)
  /\ (lo <= k2 <= hi <-> 0.01 ^ 2 <= k2 <= 0.6 ^ 2).
Proof.
  intros Hmode k2 lo hi; subst lo hi.
  rewrite (k2_prior_parity mode ts Hmode); fold k2; cbn [fst snd pow].
  unfold Rmax, Rmin.
  repeat destruct (Rle_dec _ _); repeat split; intros; lra.
Qed.

Lemma k2_prior_parity_interval_witness :
  (TransitFitStep.k2_prior "odd" Sample.ts).1
  < (TransitFitStep.k2_prior "odd" Sample.ts).2.
Proof.
  destruct (k2_prior_parity_interval "odd" Sample.ts) as [Hlt _].
  - by repeat constructor.
  - apply Hlt; cbn [Sample.ts ts_tf_all_k2_med]; lra.
Defined.

Variable ldc : R -> result (R * R).

Lemma in_force_app_last (name : string)
    (calls : list (string * PriorSetup.prior)) (pr : PriorSetup.prior) :
  PriorSetup.in_force name (calls ++ [(name, pr)]) = Some pr.
Proof.
  unfold PriorSetup.in_force.
  rewrite filter_app, filter_cons_True by reflexivity.
  rewrite filter_nil, last_snoc; reflexivity.
Qed.

Lemma in_force_app_other (name other : string)
    (calls : list (string * PriorSetup.prior)) (pr : PriorSetup.prior) :
  other <> name ->
  PriorSetup.in_force name (calls ++ [(other, pr)])
  = PriorSetup.in_force name calls.
Proof.
  intros Hne; unfold PriorSetup.in_force.
  rewrite filter_app, filter_cons_False by (cbn; congruence).
  by rewrite filter_nil, app_nil_r.
Qed.

(** X14: When the effective temperature is known and the table gives
    coefficients for it, the priors in force on [q1] and [q2] after the calls
    are the normal priors of width [1e-5] around the tabulated values, in
    every mode: the priors taken from the fit of all transits are overridden.
    The prior on [k2] is not affected. *)
Theorem teff_fixes_limb_darkening (mode : string) (ts : TransitSearch)
    (pr : PriorSetup.Reference) (teff : R) (q : R * R)
    (calls0 : list (string * PriorSetup.prior)) :
  ldc teff = Ok q ->
  let out := PriorSetup.set_priors ldc mode ts pr (Some teff) calls0 in
  out.2 = Ok tt
  /\ PriorSetup.in_force "q1" out.1 = Some (PriorSetup.NP q.1 0.00001)
  /\ PriorSetup.in_force "q2" out.1 = Some (PriorSetup.NP q.2 0.00001)
  /\ PriorSetup.in_force "k2" out.1
     = Some (PriorSetup.UP (TransitFitStep.k2_prior mode ts).1
                           (TransitFitStep.k2_prior mode ts).2).
Proof.
  intros Hq out; subst out.
  unfold PriorSetup.set_priors, PriorSetup.set_prior,
    se_bind, se_lift, se_modify, se_ret.
  case_decide; rewrite Hq; cbn [fst snd].
  all: split; [reflexivity|].
  all: repeat split;
    repeat (rewrite in_force_app_last || rewrite in_force_app_other by done);
    reflexivity.
Qed.

(** X15: When the table has no coefficients for the temperature, the calls end
    with its exception, after the priors of the mode were set. *)
Theorem teff_outside_table_raises (mode : string) (ts : TransitSearch)
    (pr : PriorSetup.Reference) (teff : R) (e : exn)
    (calls0 : list (string * PriorSetup.prior)) :
  ldc teff = Raise e ->
  let out := PriorSetup.set_priors ldc mode ts pr (Some teff) calls0 in
  out.2 = Raise e
  /\ PriorSetup.in_force "k2" out.1
     = Some (PriorSetup.UP (TransitFitStep.k2_prior mode ts).1
                           (TransitFitStep.k2_prior mode ts).2)
  /\ PriorSetup.in_force "q1" out.1
     = (if decide (mode = "all"%string) then PriorSetup.in_force "q1" calls0
        else Some (PriorSetup.NP (PriorSetup.ref_q1_med pr)
                                 (PriorSetup.ref_q1_err pr))).
Proof.
  intros Hq out; subst out.
  unfold PriorSetup.set_priors, PriorSetup.set_prior,
    se_bind, se_lift, se_modify, se_ret.
  case_decide; rewrite Hq; cbn [fst snd].
  all: split; [reflexivity|].
  all: repeat split;
    repeat (rewrite in_force_app_last || rewrite in_force_app_other by done);
    reflexivity.
Qed.

End PriorMore.

Lemma teff_fixes_limb_darkening_witness :
  PriorSetup.in_force "q1"
    (PriorSetup.set_priors Sample2.ldc "even" Sample.ts Sample2.reference
       (Some 5500) []).1
  = Some (PriorSetup.NP 0.4 0.00001).
Proof.
  destruct (teff_fixes_limb_darkening Sample2.ldc "even" Sample.ts
              Sample2.reference 5500 (0.4, 0.3) [])
    as (_ & Hq1 & _).
  - unfold Sample2.ldc; rewrite decide_False by lra; reflexivity.
  - exact Hq1.
Defined.

Lemma teff_outside_table_raises_witness :
  (PriorSetup.set_priors Sample2.ldc "all" Sample.ts Sample2.reference
     (Some 3000) []).2
  = Raise ValueError.
Proof.
  destruct (teff_outside_table_raises Sample2.ldc "all" Sample.ts
              Sample2.reference 3000 ValueError [])
    as (Hr & _).
  - unfold Sample2.ldc; rewrite decide_True by lra; reflexivity.
  - exact Hr.
Defined.

(** ** The sine baseline *)

Section Sine.

Implicit Types (time amps bl : list R) (period phase : R).



(** One more period changes the argument of the harmonic [j] by [j + 1]
    full turns. *)
Lemma harmonic_argument_shift (t period phase : R) (j k : nat) :
  period <> 0 ->
  2 * PI * (t + INR k * period - phase * period) / (period / INR (j + 1))
  = 2 * PI * (t - phase * period) / (period / INR (j + 1))
    + 2 * INR (k * (j + 1)) * PI.
Proof.
  intros Hp.
  assert (Hj : INR (j + 1) <> 0) by (apply not_0_INR; lia).
  rewrite mult_INR; field; split; assumption.
Qed.

Lemma harmonic_periodic time period phase (a : R) (j k : nat) :
  period <> 0 ->
  SineModel.harmonic ((fun t => t + INR k * period) <$> time) period phase a j
  = SineModel.harmonic time period phase a j.
Proof.
  intros Hp; unfold SineModel.harmonic.
  rewrite <- list_fmap_compose; apply list_fmap_ext; intros i t _; cbn.
  by rewrite harmonic_argument_shift, sin_period.
Qed.

Lemma add_harmonics_periodic (j k : nat) time period phase amps bl :
  period <> 0 ->
  SineModel.add_harmonics j ((fun t => t + INR k * period) <$> time)
    period phase amps bl
  = SineModel.add_harmonics j time period phase amps bl.
Proof.
  intros Hp; revert j bl; induction amps as [|a amps IH]; intros j bl;
    cbn [SineModel.add_harmonics]; [reflexivity|].
  by rewrite harmonic_periodic, IH.
Qed.

Lemma sine_row_periodic (k : nat) time period phase amps :
  period <> 0 ->
  SineModel.sine_row ((fun t => t + INR k * period) <$> time) period phase amps
  = SineModel.sine_row time period phase amps.
Proof.
  intros Hp; unfold SineModel.sine_row.
  by rewrite add_harmonics_periodic, length_fmap.
Qed.

(** X16: The baseline of a parameter vector repeats with the period of that
    vector: moving every time stamp by a whole number of periods leaves its
    row unchanged. *)
Theorem sine_model_periodic (time period phase : list R)
    (amplitudes : list (list R)) (i k : nat) (p : R) :
  period !! i = Some p -> p <> 0 ->
  SineModel.sine_model ((fun t => t + INR k * p) <$> time) period phase
    amplitudes !! i
  = SineModel.sine_model time period phase amplitudes !! i.
Proof.
  intros Hi Hp; unfold SineModel.sine_model.
  rewrite !lookup_zip_with, Hi; cbn [mbind option_bind].
  destruct (phase !! i) as [ph|]; [|reflexivity].
  cbn [mbind option_bind].
  destruct (amplitudes !! i) as [amps|]; [|reflexivity].
  cbn [mbind option_bind fst snd]; by rewrite sine_row_periodic.
Qed.

Lemma sine_model_periodic_witness :
  SineModel.sine_model ((fun t => t + INR 3 * 2) <$> [0; 0.5]) [2] [0.25]
    [[0.001; 0.0005]] !! 0%nat
  = SineModel.sine_model [0; 0.5] [2] [0.25] [[0.001; 0.0005]] !! 0%nat.
Proof.
  apply (sine_model_periodic [0; 0.5] [2] [0.25] [[0.001; 0.0005]] 0 3 2);
    [reflexivity | lra].
Defined.





End Sine.

(** ** The whole header *)

Section WholeHeader.

Implicit Types (mode title c : string) (p : FitsHeader.Parameters)
  (ep : list Z) (ll : list R) (h : list FitsHeader.HCard).

Lemma app_cons_step {A} (x : A) (l m r : list A) :
  l ++ m = r -> (x :: l) ++ m = x :: r.
Proof. intros <-; reflexivity. Qed.

Lemma mode_tag_Ok mode c :
  TransitFitStep.mode_tag mode = Ok c ->
  exists a rest, mode = String a rest /\ c = String a EmptyString.
Proof. destruct mode as [|a rest]; [discriminate | intros [= <-]; eauto]. Qed.

(** The keywords of the cards of lines 275-288, whatever the outcome. *)
Lemma dll_keywords (fitted : bool) mode c ep ll :
  TransitFitStep.mode_tag mode = Ok c ->
  Forall (fun card => keyword card
                      ∈ ["TF" +:+ c +:+ "_DLLA"; "TFA_DLLO"; "TFA_DLLE"]%string)
         (TransitFitStep.add_to_fits fitted mode ep ll []).1.
Proof.
  intros Hc.
  unfold TransitFitStep.add_to_fits, TransitFitStep.append_card,
    se_bind, se_lift, se_modify, se_ret.
  destruct fitted; [|by constructor].
  rewrite Hc.
  destruct (TransitFitStep.mean_dll ll) as [v|e]; [|by constructor].
  case_decide; [|cbn; repeat constructor].
  destruct (getmask _ ll) as [sel|e]; [|cbn; repeat constructor].
  destruct (TransitFitStep.mean_dll sel) as [vo|e]; [|cbn; repeat constructor].
  destruct (getmask _ ll) as [sel'|e];
    [|cbn; repeat constructor; cbn; set_solver].
  destruct (TransitFitStep.mean_dll sel') as [ve|e];
    cbn; repeat constructor; cbn; set_solver.
Qed.

Lemma filter_none {A} (P : A -> Prop) `{!forall x, Decision (P x)}
    (l : list A) :
  (forall x, x ∈ l -> ~ P x) -> filter P l = [].
Proof.
  induction l as [|x l IH]; intros Hl; [reflexivity|].
  rewrite filter_cons_False by (apply Hl; by left).
  apply IH; intros y Hy; apply Hl; by right.
Qed.

(** X18: For a step with [self.lpf] set and a mode that is not empty,
    [add_to_fits] first hands the three COMMENT cards to [Header.append].
    When [self.parameters] is still [None] it then raises
    [AttributeError] and no other card is handed over. Otherwise the 25
    cards of the fitted parameters follow, whose keywords and order do not
    depend on the values nor on whether [T23] is finite, and then the dll
    cards, whose exception, if any, is the outcome; every keyword handed
    over has at most eight characters. *)
Theorem header_layout mode title ep ll h c :
  TransitFitStep.mode_tag mode = Ok c ->
  let comments :=
    [ {| FitsHeader.hkeyword := "COMMENT";
         FitsHeader.hvalue := FitsHeader.CStr "======================";
         FitsHeader.hcomment := "" |};
      {| FitsHeader.hkeyword := "COMMENT";
         FitsHeader.hvalue := FitsHeader.CStr title;
         FitsHeader.hcomment := "" |};
      {| FitsHeader.hkeyword := "COMMENT";
         FitsHeader.hvalue := FitsHeader.CStr "======================";
         FitsHeader.hcomment := "" |} ] in
  let dll := TransitFitStep.add_to_fits true mode ep ll [] in
  FitsHeader.add_to_fits true mode title None ep ll h
  = (h ++ comments, Raise AttributeError)
  /\ forall p,
       let out := FitsHeader.add_to_fits true mode title (Some p) ep ll h in
       exists cards,
         out.1 = h ++ comments ++ cards ++ (FitsHeader.of_card <$> dll.1)
         /\ out.2 = dll.2
         /\ FitsHeader.hkeyword <$> cards
            = (fun s => "TF" +:+ c +:+ s)
                <$> ["_T0"; "_T0E"; "_PR"; "_PRE"; "_RHO"; "_RHOE"; "_B";
                     "_BE"; "_AR"; "_ARE"; "_SC"; "_SCE"; "_SA"; "_SAE";
                     "_RR"; "_RRE"; "_A"; "_AE"; "_T14"; "_T14E"; "_T23";
                     "_T23E"; "_TDR"; "_WN"; "_GRAZ"]%string
         /\ Forall (fun k => (String.length k <= 8)%nat)
                   (FitsHeader.hkeyword
                      <$> (comments ++ cards
                           ++ (FitsHeader.of_card <$> dll.1))).
Proof.
  intros Hc comments dll.
  pose proof (dll_keywords true mode c ep ll Hc) as Hk; fold dll in Hk.
  destruct (mode_tag_Ok mode c Hc) as (a & rest & -> & ->).
  unfold FitsHeader.add_to_fits, FitsHeader.append, FitsHeader.dll_cards,
    se_bind, se_lift, se_modify, se_ret.
  cbn [TransitFitStep.mode_tag]; fold dll.
  clearbody dll.
  split; [by rewrite <- !app_assoc|].
  intros p.
  assert (Hshort : Forall (fun k => (String.length k <= 8)%nat)
                     (FitsHeader.hkeyword <$> (FitsHeader.of_card <$> dll.1))).
  { rewrite <- list_fmap_compose.
    apply Forall_fmap; eapply Forall_impl; [exact Hk|].
    intros card Hin; cbn in Hin |- *.
    repeat (apply elem_of_cons in Hin as [Heq | Hin];
            [rewrite Heq; compute; lia|]).
    by apply elem_of_nil in Hin. }
  destruct (FitsHeader.p_t23_med p), (FitsHeader.p_t23_err p);
    cbn [fst snd]; rewrite <- !app_assoc; cbn [app];
    (eexists; split;
     [do 4 f_equal; symmetry; repeat eapply app_cons_step; apply app_nil_l|];
     split; [reflexivity|]);
    (match goal with
     | |- ?lhs = ?rhs /\ _ =>
         assert (Hkeys : lhs = rhs) by reflexivity
     end);
    (split; [exact Hkeys|]);
    rewrite !fmap_app, Hkeys; apply Forall_app;
    (split; [cbn; repeat constructor; compute; lia|]);
    apply Forall_app; (split; [|exact Hshort]);
    cbn [app fmap list_fmap]; repeat constructor; compute; lia.
Qed.

Lemma header_layout_witness :
  FitsHeader.add_to_fits true "odd" "Odd transits" None [1; 3]%Z [2; 4] []
  = ([ {| FitsHeader.hkeyword := "COMMENT";
          FitsHeader.hvalue := FitsHeader.CStr "======================";
          FitsHeader.hcomment := "" |};
       {| FitsHeader.hkeyword := "COMMENT";
          FitsHeader.hvalue := FitsHeader.CStr "Odd transits";
          FitsHeader.hcomment := "" |};
       {| FitsHeader.hkeyword := "COMMENT";
          FitsHeader.hvalue := FitsHeader.CStr "======================";
          FitsHeader.hcomment := "" |} ],
     Raise AttributeError).
Proof.
  destruct (header_layout "odd" "Odd transits" [1; 3]%Z [2; 4] [] "o")
    as (Hnone & _); [reflexivity|].
  exact Hnone.
Defined.

(** X19: When the summary exists and the median or the error of [T23] is
    not finite, the cards handed over by [add_to_fits] under the keywords of
    [T23], of its uncertainty and of its ratio to [T14] are exactly three,
    in this order, and each holds the integer [0]; this holds whatever the
    outcome of the dll cards. *)
Theorem t23_cards_zero mode title p ep ll c :
  TransitFitStep.mode_tag mode = Ok c ->
  FitsHeader.p_t23_med p = None \/ FitsHeader.p_t23_err p = None ->
  filter (fun card =>
            FitsHeader.hkeyword card
              ∈ ["TF" +:+ c +:+ "_T23"; "TF" +:+ c +:+ "_T23E";
                 "TF" +:+ c +:+ "_TDR"]%string)
         (FitsHeader.add_to_fits true mode title (Some p) ep ll []).1
  = [ {| FitsHeader.hkeyword := "TF" +:+ c +:+ "_T23";
         FitsHeader.hvalue := FitsHeader.CInt 0;
         FitsHeader.hcomment := "Transit duration T23 [d]" |};
      {| FitsHeader.hkeyword := "TF" +:+ c +:+ "_T23E";
         FitsHeader.hvalue := FitsHeader.CInt 0;
         FitsHeader.hcomment := "Transit duration T23 uncertainty [d]" |};
      {| FitsHeader.hkeyword := "TF" +:+ c +:+ "_TDR";
         FitsHeader.hvalue := FitsHeader.CInt 0;
         FitsHeader.hcomment := "T23 to T14 ratio" |} ].
Proof.
  intros Hc Ht23.
  pose proof (dll_keywords true mode c ep ll Hc) as Hk.
  destruct (mode_tag_Ok mode c Hc) as (a & rest & -> & ->).
  unfold FitsHeader.add_to_fits, FitsHeader.append, FitsHeader.dll_cards,
    se_bind, se_lift, se_modify, se_ret.
  cbn [TransitFitStep.mode_tag].
  set (dll := TransitFitStep.add_to_fits true (String a rest) ep ll []) in *.
  clearbody dll.
  assert (Hdll :
    filter (fun card =>
              FitsHeader.hkeyword card
                ∈ ["TF" +:+ String a "" +:+ "_T23";
                   "TF" +:+ String a "" +:+ "_T23E";
                   "TF" +:+ String a "" +:+ "_TDR"]%string)
           (FitsHeader.of_card <$> dll.1) = []).
  { apply filter_none; intros card' Hin Hkey.
    apply list_elem_of_fmap in Hin as (c0 & -> & Hc0).
    rewrite Forall_forall in Hk; specialize (Hk c0 Hc0); cbn in Hk, Hkey.
    repeat (apply elem_of_cons in Hk as [Hk | Hk];
            [rewrite Hk in Hkey;
             repeat (apply elem_of_cons in Hkey as [Hkey | Hkey];
                     [by simplify_eq|]);
             by apply elem_of_nil in Hkey|]).
    by apply elem_of_nil in Hk. }
  destruct (FitsHeader.p_t23_med p) as [m|], (FitsHeader.p_t23_err p) as [e|];
    try (destruct Ht23; discriminate);
    cbn [fst snd]; rewrite <- !app_assoc; cbn [app];
    repeat first
      [ rewrite filter_cons_True
          by (cbn; first [by left | by (right; left) | by (right; right; left)])
      | rewrite filter_cons_False
          by (cbn; intros Hkey;
              repeat (apply elem_of_cons in Hkey as [Hkey | Hkey];
                      [by simplify_eq|]);
              by apply elem_of_nil in Hkey) ];
    by rewrite Hdll.
Qed.

Lemma t23_cards_zero_witness :
  filter (fun card =>
            FitsHeader.hkeyword card
              ∈ ["TF" +:+ "o" +:+ "_T23"; "TF" +:+ "o" +:+ "_T23E";
                 "TF" +:+ "o" +:+ "_TDR"]%string)
         (FitsHeader.add_to_fits true "odd" "Odd transits"
            (Some Sample2.parameters) [1; 3]%Z [2; 4] []).1
  = [ {| FitsHeader.hkeyword := "TF" +:+ "o" +:+ "_T23";
         FitsHeader.hvalue := FitsHeader.CInt 0;
         FitsHeader.hcomment := "Transit duration T23 [d]" |};
      {| FitsHeader.hkeyword := "TF" +:+ "o" +:+ "_T23E";
         FitsHeader.hvalue := FitsHeader.CInt 0;
         FitsHeader.hcomment := "Transit duration T23 uncertainty [d]" |};
      {| FitsHeader.hkeyword := "TF" +:+ "o" +:+ "_TDR";
         FitsHeader.hvalue := FitsHeader.CInt 0;
         FitsHeader.hcomment := "T23 to T14 ratio" |} ].
Proof.
  apply (t23_cards_zero "odd" "Odd transits" Sample2.parameters
           [1; 3]%Z [2; 4] "o"); [reflexivity | by left].
Defined.

End WholeHeader.

(** ** The fit step without a transit window *)

Section NoWindow.

Variable epoch : R -> R -> R -> Z.
Variable fit : list R -> list R -> R * R -> Posterior.

(** X20: With a duration that is not positive the step selects nothing and
    raises [ValueError] at [self.time.min()], before any fit is run, in each
    of the three modes. *)
Theorem call_without_duration (ts : TransitSearch) (mode : string) :
  mode ∈ ["all"; "even"; "odd"]%string ->
  length (ts_phase ts) = length (ts_time ts) ->
  length (ts_flux ts) = length (ts_time ts) ->
  ts_duration ts <= 0 ->
  TransitFitStep.__call__ epoch fit ts mode = Raise ValueError.
Proof.
  intros Hmode Hph Hfl Hd.
  destruct (mask_empty_without_duration mode
              ((fun t => epoch t (ts_zero_epoch ts) (ts_period ts)) <$> ts_time ts)
              (ts_phase ts) (ts_period ts) (ts_duration ts) Hmode)
    as (mask & Hmask & Hempty); [by rewrite length_fmap | exact Hd |].
  pose proof (transit_mask_length _ _ _ _ _ _ Hmask) as Hlm.
  rewrite length_fmap in Hlm.
  apply (call_empty_selection epoch fit ts mode mask Hmask Hlm Hfl).
  apply length_zero_iff_nil.
  by rewrite (length_compress_retained mask (ts_time ts) Hlm), Hempty,
    size_empty.
Qed.

End NoWindow.

Lemma call_without_duration_witness :
  TransitFitStep.__call__ Sample.epoch Sample.fit
    {| ts_time := [0; 0.5]; ts_flux := [1; 1]; ts_phase := [1; 1.5];
       ts_period := 2; ts_zero_epoch := 0; ts_duration := 0;
       ts_depth := 0.01; ts_tf_all_k2_med := 0.01 |} "even"
  = Raise ValueError.
Proof.
  apply call_without_duration;
    [by repeat constructor | reflexivity | reflexivity | cbn; lra].
Defined.

(** ** A step that was not fitted *)

Section Unfitted.

Variable OTSStep__init__ : TransitSearch -> SE (gmap string value) unit.

(** X21: A step that was constructed and not yet called has no fit: its
    attribute [lpf] is [None], and [add_to_fits], which tests it, leaves every
    header as it is. *)
Theorem fresh_step_writes_nothing (ts : TransitSearch) (mode title : string)
    (nsamples : Z) (exptime : R) (use_opencl use_tqdm : bool)
    (self : gmap string value) (p : option FitsHeader.Parameters)
    (ep : list Z) (ll : list R) (h : list FitsHeader.HCard) :
  TransitFitStep.__init__ OTSStep__init__ ts mode title nsamples exptime
    use_opencl use_tqdm ∅ = (self, Ok tt) ->
  self !! "lpf"%string = Some VNone
  /\ self !! "dll_values"%string = Some VNone
  /\ FitsHeader.add_to_fits
       (match self !! "lpf"%string with Some VNone => false | _ => true end)
       mode title p ep ll h
     = (h, Ok tt).
Proof.
  intros Hinit.
  destruct (decide (mode ∈ ["all"; "even"; "odd"]%string)) as [Hmode | Hmode].
  2:{ rewrite init_invalid in Hinit by exact Hmode. discriminate Hinit. }
  destruct (OTSStep__init__ ts ∅) as [base [[]|e]] eqn:Hbase.
  2:{ rewrite (init_base_raises OTSStep__init__ ts mode title nsamples exptime
                 use_opencl use_tqdm ∅ base e Hmode Hbase) in Hinit.
      discriminate Hinit. }
  destruct (init_valid OTSStep__init__ ts mode title nsamples exptime
              use_opencl use_tqdm ∅ base Hmode Hbase)
    as (self' & Hrun & _ & _ & Hlpf & Hdll).
  rewrite Hrun in Hinit; injection Hinit as <-.
  split; [exact Hlpf|]; split; [exact Hdll|].
  rewrite Hlpf; reflexivity.
Qed.

End Unfitted.

Lemma fresh_step_writes_nothing_witness :
  exists self,
    TransitFitStep.__init__ Sample.OTSStep__init__ Sample.ts "all"
      "All transits" 1 1 false true ∅ = (self, Ok tt)
    /\ self !! "lpf"%string = Some VNone.
Proof.
  eexists; split; [reflexivity|].
  eapply (fresh_step_writes_nothing Sample.OTSStep__init__ Sample.ts "all"
            "All transits" 1 1 false true _ None [] [] []).
  reflexivity.
Defined.

(** ** Arrays of the wrong length in the table *)

Section TableShape.

(** X22: When there is at least one epoch and the observed or the model flux
    has not the length of the epochs, the table raises [IndexError] at the
    first selection; without any epoch the table is empty, whatever the
    fluxes. *)
Theorem per_orbit_dll_shape (epochs : list Z) (fobs fmod : list R) (err : R) :
  length fobs <> length epochs \/ length fmod <> length epochs ->
  TransitFitStep.per_orbit_dll epochs fobs fmod err
  = match epochs with
    | [] => Ok ([], [])
    | _ :: _ => Raise IndexError
    end.
Proof.
  intros Hlen; unfold TransitFitStep.per_orbit_dll.
  destruct epochs as [|e0 epochs']; [reflexivity|].
  destruct (unique (e0 :: epochs')) as [|e ues] eqn:Hu.
  { assert (He : e0 ∈ unique (e0 :: epochs'))
      by (apply elem_of_unique; by left).
    rewrite Hu in He; by apply elem_of_nil in He. }
  cbn [TransitFitStep.for_epochs]; unfold TransitFitStep.epoch_dll, getmask.
  rewrite !length_fmap.
  destruct (decide (length (e0 :: epochs') = length fobs)) as [Ho | Ho];
    [|reflexivity].
  cbn [mbind result_bind].
  rewrite decide_False; [reflexivity|].
  destruct Hlen as [H | H]; congruence.
Qed.

Lemma per_orbit_dll_shape_witness :
  TransitFitStep.per_orbit_dll [0; 1]%Z [1; 0.99] [1] 0.01 = Raise IndexError.
Proof.
  apply (per_orbit_dll_shape [0; 1]%Z [1; 0.99] [1] 0.01).
  right; cbn; lia.
Defined.

End TableShape.

(** ** The whole of [__call__] *)

Section FullCall.

Variable epoch : R -> R -> R -> Z.
Variable fit : list R -> list R -> R * R -> Posterior.
Variable ldc : R -> result (R * R).

Implicit Types (ts : TransitSearch) (mode : string)
  (reference : option PriorSetup.Reference) (teff : option R)
  (calls : list (string * PriorSetup.prior)).

(** The fit path is the selection followed by the fit. *)
Lemma call_via_select (fit' : list R -> list R -> R * R -> Posterior) ts mode :
  TransitFitStep.__call__ epoch fit' ts mode
  = FullStep.select epoch ts mode ≫= fun sel =>
      let '(mask, epochs', time, fobs) := sel in
      let post := fit' time fobs (TransitFitStep.k2_prior mode ts) in
      TransitFitStep.per_orbit_dll epochs' fobs (post_fmod post)
        (Rpower 10 (post_pv7 post)) ≫= fun tab =>
      Ok {| fit_mask := mask;
            fit_time := time;
            fit_fobs := fobs;
            fit_dll_epochs := tab.1;
            fit_dll_values := tab.2;
            fit_delta_bic :=
              TransitFitStep.score mode tab.2 (length time) |}.
Proof.
  unfold TransitFitStep.__call__, FullStep.select.
  destruct (TransitFitStep.transit_mask _ _ _ _ _) as [mask|e];
    [|reflexivity]; cbn [mbind result_bind].
  destruct (getmask mask (_ <$> ts_time ts)) as [epochs'|e];
    [|reflexivity]; cbn [mbind result_bind].
  destruct (getmask mask (ts_time ts)) as [time|e];
    [|reflexivity]; cbn [mbind result_bind].
  destruct (getmask mask (ts_flux ts)) as [fobs|e];
    [|reflexivity]; cbn [mbind result_bind].
  destruct (amin time) as [tmin|e]; [|reflexivity]; cbn [mbind result_bind].
  destruct (TransitFitStep.per_orbit_dll _ _ _ _) as [[ues lnl]|e];
    reflexivity.
Qed.

Lemma select_Ok ts mode (mask : list bool) (epochs' : list Z)
    (time fobs : list R) :
  FullStep.select epoch ts mode = Ok (mask, epochs', time, fobs) ->
  TransitFitStep.transit_mask mode
    ((fun t => epoch t (ts_zero_epoch ts) (ts_period ts)) <$> ts_time ts)
    (ts_phase ts) (ts_period ts) (ts_duration ts) = Ok mask
  /\ length mask = length (ts_time ts)
  /\ length (ts_flux ts) = length (ts_time ts)
  /\ epochs' = compress mask
                 ((fun t => epoch t (ts_zero_epoch ts) (ts_period ts))
                    <$> ts_time ts)
  /\ time = compress mask (ts_time ts)
  /\ fobs = compress mask (ts_flux ts)
  /\ time <> [].
Proof.
  unfold FullStep.select; intros H.
  apply bind_Ok_inv in H as (mask' & Hmask & H).
  apply bind_Ok_inv in H as (e' & He & H).
  apply bind_Ok_inv in H as (t' & Ht & H).
  apply bind_Ok_inv in H as (f' & Hf & H).
  apply bind_Ok_inv in H as (tmin & Hmin & H).
  injection H as -> -> -> ->.
  apply getmask_Ok in He as [_ ->].
  apply getmask_Ok in Ht as [Hlt ->].
  apply getmask_Ok in Hf as [Hlf ->].
  repeat split; try done; try congruence.
  intros Hnil; rewrite Hnil in Hmin; discriminate Hmin.
Qed.

(** The outcome of the selection on data with one phase per time. *)
Lemma select_outcome ts mode :
  length (ts_phase ts) = length (ts_time ts) ->
  let passes := fun (i : nat) =>
    exists t ph, ts_time ts !! i = Some t /\ ts_phase ts !! i = Some ph
      /\ Spec.parity_ok mode (epoch t (ts_zero_epoch ts) (ts_period ts))
      /\ Spec.in_window ph (ts_period ts) (ts_duration ts) in
  match FullStep.select epoch ts mode with
  | Ok _ =>
      mode ∈ ["all"; "even"; "odd"]%string
      /\ length (ts_flux ts) = length (ts_time ts)
      /\ exists i, passes i
  | Raise e =>
      (e = NotImplementedError /\ mode ∉ ["all"; "even"; "odd"]%string)
      \/ (e = IndexError /\ mode ∈ ["all"; "even"; "odd"]%string
          /\ length (ts_flux ts) <> length (ts_time ts))
      \/ (e = ValueError /\ mode ∈ ["all"; "even"; "odd"]%string
          /\ length (ts_flux ts) = length (ts_time ts)
          /\ forall i, ~ passes i)
  end.
Proof.
  intros Hph passes.
  set (fit0 := fun (_ fobs : list R) (_ : R * R) =>
                 {| post_fmod := fobs; post_pv7 := 0 |}).
  pose proof (call_outcome_fit_path epoch fit0 (fun _ _ _ H => H) ts mode Hph)
    as Hout.
  cbv zeta in Hout; fold passes in Hout.
  destruct (FullStep.select epoch ts mode) as [[[[mask epochs'] time] fobs]|e]
    eqn:Hsel.
  - destruct (select_Ok ts mode mask epochs' time fobs Hsel)
      as (Hmask & Hlm & Hlf & _ & -> & _ & Hne).
    pose proof (call_eval epoch fit0 (fun _ _ _ H => H) ts mode mask Hmask
                  Hlm Hlf Hne) as Hc.
    cbv zeta in Hc; rewrite Hc in Hout. exact Hout.
  - enough (Hcall : TransitFitStep.__call__ epoch fit0 ts mode = Raise e)
      by (rewrite Hcall in Hout; exact Hout).
    by rewrite call_via_select, Hsel.
Qed.

End FullCall.

Section FullCallOutcome.

Variable epoch : R -> R -> R -> Z.
Variable fit : list R -> list R -> R * R -> Posterior.
Variable ldc : R -> result (R * R).

Implicit Types (ts : TransitSearch) (mode : string)
  (reference : option PriorSetup.Reference) (teff : option R)
  (calls : list (string * PriorSetup.prior)).

(** The outcome of the prior setup. *)
Lemma configure_outcome mode ts reference teff calls0 :
  let out := FullStep.configure ldc mode ts reference teff calls0 in
  match out.2 with
  | Ok _ =>
      (mode = "all"%string \/ is_Some reference)
      /\ (forall t, teff = Some t -> exists q, ldc t = Ok q)
      /\ PriorSetup.in_force "k2" out.1
         = Some (PriorSetup.UP (TransitFitStep.k2_prior mode ts).1
                               (TransitFitStep.k2_prior mode ts).2)
  | Raise e =>
      (e = AttributeError /\ mode <> "all"%string /\ reference = None
       /\ out.1 = calls0)
      \/ ((mode = "all"%string \/ is_Some reference)
          /\ exists t, teff = Some t /\ ldc t = Raise e)
  end.
Proof.
  unfold FullStep.configure, PriorSetup.set_prior,
    se_bind, se_lift, se_modify, se_ret.
  case_decide as Hmode; [|destruct reference as [pr|]];
    cbn [fst snd]; try (left; done).
  all: destruct teff as [t|]; [destruct (ldc t) as [q|e] eqn:Hq|];
    cbn [fst snd].
  all: try (right; split; [by eauto | by eauto]).
  all: split; [by eauto|]; split;
    [ intros t' Ht'; simplify_eq; eauto
    | repeat (rewrite in_force_app_last
              || rewrite in_force_app_other by done); reflexivity ].
Qed.

Hypothesis fit_shape :
  forall time fobs prior,
    length fobs = length time ->
    length (post_fmod (fit time fobs prior)) = length time.

(** X4: On data with one phase per time stamp, with collaborators that
    return and a fit that gives one model flux per selected time, the step
    ends in one of these ways, each exactly under its condition and in
    this order: [NotImplementedError] for a mode outside the three;
    [IndexError] for a flux array of another length; [ValueError] when no
    observation passes the parity filter and the window; [AttributeError]
    when the mode is not all and the reference summary is [None]; the
    exception of the limb-darkening lookup when it raises; a normal return
    otherwise, after the priors, when [initialize_only] is set and after
    the fit when it is not. No prior is set before the first four. *)
Theorem full_call_outcome ts reference teff mode (initialize_only : bool)
    calls0 :
  length (ts_phase ts) = length (ts_time ts) ->
  let passes := fun (i : nat) =>
    exists t ph, ts_time ts !! i = Some t /\ ts_phase ts !! i = Some ph
      /\ Spec.parity_ok mode (epoch t (ts_zero_epoch ts) (ts_period ts))
      /\ Spec.in_window ph (ts_period ts) (ts_duration ts) in
  let selected :=
    mode ∈ ["all"; "even"; "odd"]%string
    /\ length (ts_flux ts) = length (ts_time ts)
    /\ exists i, passes i in
  let referenced := mode = "all"%string \/ is_Some reference in
  let out := FullStep.__call__ epoch fit ldc ts reference teff mode
               initialize_only calls0 in
  match out.2 with
  | Ok o =>
      selected /\ referenced
      /\ (forall t, teff = Some t -> exists q, ldc t = Ok q)
      /\ match o with
         | FullStep.Initialized _ _ _ => initialize_only = true
         | FullStep.Fitted _ => initialize_only = false
         end
  | Raise e =>
      (e = NotImplementedError /\ (mode ∉ ["all"; "even"; "odd"]%string)
       /\ out.1 = calls0)
      \/ (e = IndexError /\ mode ∈ ["all"; "even"; "odd"]%string
          /\ length (ts_flux ts) <> length (ts_time ts) /\ out.1 = calls0)
      \/ (e = ValueError /\ mode ∈ ["all"; "even"; "odd"]%string
          /\ length (ts_flux ts) = length (ts_time ts)
          /\ (forall i, ~ passes i) /\ out.1 = calls0)
      \/ (e = AttributeError /\ selected /\ mode <> "all"%string
          /\ reference = None /\ out.1 = calls0)
      \/ (selected /\ referenced /\ exists t, teff = Some t /\ ldc t = Raise e)
  end.
Proof.
  intros Hph passes selected referenced out; subst out.
  pose proof (select_outcome epoch ts mode Hph) as Hsel.
  cbv zeta in Hsel; fold passes in Hsel.
  unfold FullStep.__call__, se_bind, se_lift, se_ret.
  destruct (FullStep.select epoch ts mode)
    as [[[[mask epochs'] time] fobs]|e] eqn:Hs.
  2:{ cbn [fst snd].
      destruct Hsel as [[-> ?] | [(-> & ? & ?) | (-> & ? & ? & ?)]];
        [left | right; left | right; right; left]; done. }
  change selected in Hsel.
  pose proof (configure_outcome mode ts reference teff calls0) as Hconf.
  cbv zeta in Hconf; fold referenced in Hconf.
  destruct (FullStep.configure ldc mode ts reference teff calls0)
    as [calls1 [[]|e]]; cbn [fst snd] in Hconf |- *.
  2:{ destruct Hconf as [(-> & ? & ? & ->) | [? ?]];
        [right; right; right; left | right; right; right; right]; done. }
  destruct Hconf as (Href & Hteff & _).
  destruct initialize_only; [cbn; done|].
  destruct (select_Ok epoch ts mode mask epochs' time fobs Hs)
    as (Hmask & Hlm & Hlf & -> & -> & -> & Hne).
  rewrite per_orbit_dll_ok; [cbn; done | |].
  - apply length_compress; [congruence | by rewrite length_fmap].
  - rewrite fit_shape by (apply length_compress; congruence).
    apply length_compress; [congruence | by rewrite length_fmap].
Qed.

(** X3: Whenever [__call__] returns normally the prior on [k2] is the
    uniform prior of the mode, the mask has one entry per time stamp and
    the selected times and fluxes are as many as the mask retains, at
    least one. A return with [initialize_only] set has computed nothing
    else. A return after the fit has [initialize_only] unset and has
    computed in addition a table with one value per epoch, its epochs
    strictly increasing and exactly the epochs of the retained
    observations, and a score in the mode all and only there. *)
Theorem full_call_invariants ts reference teff mode (initialize_only : bool)
    calls0 calls (o : FullStep.outcome) :
  FullStep.__call__ epoch fit ldc ts reference teff mode initialize_only
    calls0 = (calls, Ok o) ->
  PriorSetup.in_force "k2" calls
  = Some (PriorSetup.UP (TransitFitStep.k2_prior mode ts).1
                        (TransitFitStep.k2_prior mode ts).2)
  /\ match o with
     | FullStep.Initialized mask time fobs =>
         initialize_only = true
         /\ length mask = length (ts_time ts)
         /\ length time = size (Spec.retained mask)
         /\ length fobs = length time
         /\ (1 <= length time)%nat
     | FullStep.Fitted r =>
         initialize_only = false
         /\ length (fit_mask r) = length (ts_time ts)
         /\ length (fit_time r) = size (Spec.retained (fit_mask r))
         /\ length (fit_fobs r) = length (fit_time r)
         /\ (1 <= length (fit_time r))%nat
         /\ length (fit_dll_values r) = length (fit_dll_epochs r)
         /\ StronglySorted Z.lt (fit_dll_epochs r)
         /\ (forall e, e ∈ fit_dll_epochs r <->
               exists i t, i ∈ Spec.retained (fit_mask r)
                 /\ ts_time ts !! i = Some t
                 /\ e = epoch t (ts_zero_epoch ts) (ts_period ts))
         /\ (is_Some (fit_delta_bic r) <-> mode = "all"%string)
     end.
Proof.
  unfold FullStep.__call__, se_bind at 1, se_lift at 1.
  destruct (FullStep.select epoch ts mode)
    as [[[[mask epochs'] time] fobs]|e] eqn:Hs; [|discriminate].
  pose proof (configure_outcome mode ts reference teff calls0) as Hconf.
  cbv zeta in Hconf.
  unfold se_bind at 1.
  destruct (FullStep.configure ldc mode ts reference teff calls0)
    as [calls1 [[]|e]]; cbn [fst snd] in Hconf |- *; [|discriminate].
  destruct Hconf as (_ & _ & Hk2).
  destruct initialize_only.
  - unfold se_ret; intros [= <- <-]; split; [exact Hk2|].
    destruct (select_Ok epoch ts mode mask epochs' time fobs Hs)
      as (Hmask & Hlm & Hlf & _ & -> & -> & Hne).
    split; [reflexivity|]; split; [exact Hlm|].
    split; [by apply length_compress_retained|].
    split; [apply length_compress; congruence|].
    destruct (compress mask (ts_time ts)); [done | cbn; lia].
  - unfold se_bind, se_lift, se_ret.
    destruct (TransitFitStep.per_orbit_dll _ _ _ _) as [tab|e] eqn:Htab;
      [|discriminate].
    intros [= <- <-]; split; [exact Hk2|]; split; [reflexivity|].
    apply (call_inversion epoch fit ts mode).
    by rewrite call_via_select, Hs; cbn [mbind result_bind]; rewrite Htab.
Qed.

End FullCallOutcome.

Lemma sample_select :
  FullStep.select Sample.epoch Sample.ts "all"
  = Ok ([true; true], [0; 0]%Z, [0; 0.5], [1; 1]).
Proof.
  unfold FullStep.select; rewrite sample_mask_all; reflexivity.
Qed.

Lemma sample_initialize :
  exists calls,
    FullStep.__call__ Sample.epoch Sample.fit Sample2.ldc Sample.ts None None
      "all" true []
    = (calls, Ok (FullStep.Initialized [true; true] [0; 0.5] [1; 1])).
Proof.
  unfold FullStep.__call__, se_bind at 1, se_lift at 1.
  rewrite sample_select. eexists; reflexivity.
Qed.

Lemma full_call_invariants_witness :
  exists calls,
    FullStep.__call__ Sample.epoch Sample.fit Sample2.ldc Sample.ts None None
      "all" true []
    = (calls, Ok (FullStep.Initialized [true; true] [0; 0.5] [1; 1]))
    /\ PriorSetup.in_force "k2" calls
       = Some (PriorSetup.UP (TransitFitStep.k2_prior "all" Sample.ts).1
                             (TransitFitStep.k2_prior "all" Sample.ts).2).
Proof.
  destruct sample_initialize as [calls Hrun].
  exists calls; split; [exact Hrun|].
  by destruct (full_call_invariants Sample.epoch Sample.fit Sample2.ldc
                 Sample.ts None None "all" true [] calls _ Hrun).
Defined.

Lemma full_call_outcome_witness :
  (FullStep.__call__ Sample.epoch Sample.fit Sample2.ldc Sample.ts None None
     "even" false []).2
  = Raise AttributeError.
Proof.
  pose proof (full_call_outcome Sample.epoch Sample.fit Sample2.ldc
                sample_fit_shape Sample.ts None None "even" false []
                eq_refl) as H.
  cbv zeta in H.
  destruct (FullStep.__call__ Sample.epoch Sample.fit Sample2.ldc Sample.ts
              None None "even" false []).2 as [o|e].
  - destruct H as (_ & [Hall | [? Href]] & _); discriminate.
  - destruct H as [(_ & Hin & _) | [(_ & _ & Hlen & _)
             | [(_ & _ & _ & Hno & _) | [(-> & _) | (_ & _ & t & Ht & _)]]]].
    + exfalso; apply Hin; by repeat constructor.
    + exfalso; by apply Hlen.
    + exfalso; apply (Hno 0%nat); exists 0, 1.
      repeat split; try reflexivity; [|exact sample_window_0].
      by apply parity_ok_even.
    + reflexivity.
    + discriminate Ht.
Defined.
